(** * german-law-diff: the text synopsis of two versions of a provision

    A shallow embedding of [generate_synopsis_html] and [get_synopsis_api]
    of [app.py].  A Python [str] is a sequence of Unicode code points; it is
    modelled as a list of code points, so that German and Chinese text is
    covered and [str.replace] acts on whole characters. *)

From Stdlib Require Import String Ascii.
From Stdlib Require Import List NArith ZArith Lia Bool Arith.
From Stdlib Require Import Sorted Permutation.
Import ListNotations.

Set Implicit Arguments.

(** ** Texts *)

Definition char := N.
Definition text := list char.

(** A literal of the source, read as its code points (ASCII literals only). *)
Definition str (s : string) : text :=
  List.map N_of_ascii (list_ascii_of_string s).

Definition text_eq_dec : forall a b : text, {a = b} + {a <> b} :=
  list_eq_dec N.eq_dec.

Definition text_eqb (a b : text) : bool :=
  if text_eq_dec a b then true else false.

(** ** [str.replace]

    [s.replace(old, new)] replaces the non-overlapping occurrences of [old]
    in [s], leftmost first.  [replace_scan] walks [s] once; [skip] counts the
    characters of the current occurrence that are still to be dropped. *)

Fixpoint starts_with (p s : text) : bool :=
  match p, s with
  | [], _ => true
  | _ :: _, [] => false
  | a :: p', b :: s' => N.eqb a b && starts_with p' s'
  end.

Fixpoint replace_scan (old new : text) (skip : nat) (s : text) : text :=
  match s with
  | [] => []
  | c :: s' =>
      match skip with
      | S k => replace_scan old new k s'
      | O =>
          if starts_with old s
          then new ++ replace_scan old new (length old - 1) s'
          else c :: replace_scan old new 0 s'
      end
  end.

(** With an empty [old], Python puts [new] before every character and at the
    end. *)
Definition replace (old new s : text) : text :=
  match old with
  | [] => new ++ flat_map (fun c => c :: new) s
  | _ :: _ => replace_scan old new 0 s
  end.

(** ** The literals of [generate_synopsis_html] *)

Definition c_amp : char := 38%N.
Definition c_lt : char := 60%N.
Definition c_gt : char := 62%N.
Definition c_nl : char := 10%N.
Definition c_quote : char := 34%N.

Definition lit_amp : text := Eval cbv in str "&amp;".
Definition lit_lt : text := Eval cbv in str "&lt;".
Definition lit_gt : text := Eval cbv in str "&gt;".
Definition lit_br : text := Eval cbv in str "<br>".

Definition span_deleted : text :=
  Eval cbv in str "<span class=" ++ [c_quote] ++ str "diff-deleted" ++ [c_quote] ++ str ">".
Definition span_inserted : text :=
  Eval cbv in str "<span class=" ++ [c_quote] ++ str "diff-inserted" ++ [c_quote] ++ str ">".
Definition span_close : text := Eval cbv in str "</span>".

(** ** Edit scripts *)

(** Modelled from the spec: the operation codes [DIFF_DELETE], [DIFF_INSERT]
    and [DIFF_EQUAL] of [diff_match_patch], which [generate_synopsis_html]
    compares with and which are not part of the sources.  The specification
    has a tagged variant over Equal, Delete and Insert; a script is a list of
    pairs of a code and a text. *)
Inductive op : Type := DIFF_DELETE | DIFF_INSERT | DIFF_EQUAL.

Definition diff : Type := (op * text)%type.

(** The old side of a script: its Equal and Delete spans, in order; the new
    side: its Equal and Insert spans. *)
Definition old_part (d : diff) : text :=
  match fst d with DIFF_INSERT => [] | _ => snd d end.
Definition new_part (d : diff) : text :=
  match fst d with DIFF_DELETE => [] | _ => snd d end.

Definition old_side (ds : list diff) : text := flat_map old_part ds.
Definition new_side (ds : list diff) : text := flat_map new_part ds.

(** ** The renderer: the loop of [generate_synopsis_html] *)

Definition safe_data (data : text) : text :=
  replace [c_nl] lit_br
    (replace [c_gt] lit_gt
       (replace [c_lt] lit_lt
          (replace [c_amp] lit_amp data))).

(** One turn of [for op, data in diffs]; the state is
    [(old_html, new_html)]. *)
Definition render_step (acc : text * text) (d : diff) : text * text :=
  let '(old_html, new_html) := acc in
  let '(o, data) := d in
  let safe := safe_data data in
  match o with
  | DIFF_DELETE => (old_html ++ (span_deleted ++ safe ++ span_close), new_html)
  | DIFF_INSERT => (old_html, new_html ++ (span_inserted ++ safe ++ span_close))
  | DIFF_EQUAL => (old_html ++ safe, new_html ++ safe)
  end.

Definition render (diffs : list diff) : text * text :=
  fold_left render_step diffs ([], []).

(** ** The diff engine

    [generate_synopsis_html] obtains its script from [dmp.diff_main] followed
    by [dmp.diff_cleanupSemantic].  Both belong to the imported package
    [diff_match_patch]; the definitions of this part follow section 4.1 of
    the specification. *)

(** Number of characters carried by the Delete and Insert operations. *)
Definition edit_part (d : diff) : nat :=
  match fst d with DIFF_EQUAL => 0 | _ => length (snd d) end.

Definition edit_cost (ds : list diff) : nat :=
  fold_right (fun d n => edit_part d + n) 0 ds.

(** Modelled from the spec: phase 1 of the diff engine, the body of
    [diff_match_patch.diff_main], which is not part of the sources.  A
    shortest edit script over character units: equal heads are matched as
    soon as they meet, so matching runs start as near the start of the text
    as they can; where deleting and inserting cost the same, the deletion
    comes first. *)
Fixpoint ses (a : text) : text -> list diff :=
  match a with
  | [] => fun b => List.map (fun y => (DIFF_INSERT, [y])) b
  | x :: a' =>
      fix ses_row (b : text) : list diff :=
        match b with
        | [] => List.map (fun z => (DIFF_DELETE, [z])) (x :: a')
        | y :: b' =>
            if N.eqb x y then (DIFF_EQUAL, [x]) :: ses a' b'
            else
              let del := (DIFF_DELETE, [x]) :: ses a' (y :: b') in
              let ins := (DIFF_INSERT, [y]) :: ses_row b' in
              if edit_cost ins <? edit_cost del then ins else del
        end
  end.

(** Modelled from the spec: [diff_match_patch.diff_main], absent from the
    sources: the shortest edit script of the two texts. *)
Definition diff_main (text1 text2 : text) : list diff := ses text1 text2.

(** Modelled from the spec: the merging step of the cleanup pass of
    [diff_match_patch], absent from the sources.  [merge_cons d ds] puts [d]
    in front of the merged script [ds]: an empty span is dropped, a span is
    joined to a neighbour of its tag, and in a run of edits the deletion
    stands before the insertion. *)
Definition merge_cons (d : diff) (ds : list diff) : list diff :=
  match d with
  | (_, []) => ds
  | (DIFF_EQUAL, t) =>
      match ds with
      | (DIFF_EQUAL, u) :: r => (DIFF_EQUAL, t ++ u) :: r
      | _ => (DIFF_EQUAL, t) :: ds
      end
  | (DIFF_DELETE, t) =>
      match ds with
      | (DIFF_DELETE, u) :: r => (DIFF_DELETE, t ++ u) :: r
      | _ => (DIFF_DELETE, t) :: ds
      end
  | (DIFF_INSERT, t) =>
      match ds with
      | (DIFF_INSERT, u) :: r => (DIFF_INSERT, t ++ u) :: r
      | (DIFF_DELETE, u) :: (DIFF_INSERT, v) :: r =>
          (DIFF_DELETE, u) :: (DIFF_INSERT, t ++ v) :: r
      | (DIFF_DELETE, u) :: r => (DIFF_DELETE, u) :: (DIFF_INSERT, t) :: r
      | _ => (DIFF_INSERT, t) :: ds
      end
  end.

(** Modelled from the spec: [diff_match_patch.diff_cleanupMerge], absent from
    the sources: directly adjacent operations of one tag become one
    operation. *)
Definition diff_cleanupMerge (ds : list diff) : list diff :=
  fold_right merge_cons [] ds.

(** Modelled from the spec: the sizes of the edits that follow an Equal
    span, as the noise elimination of the cleanup pass (absent from the
    sources) needs them: the characters deleted and inserted by the run of
    edits at the head of a script. *)
Fixpoint lead_deleted (ds : list diff) : nat :=
  match ds with
  | (DIFF_DELETE, t) :: r => length t + lead_deleted r
  | (DIFF_INSERT, _) :: r => lead_deleted r
  | _ => 0
  end.

(** Modelled from the spec: as [lead_deleted], for the inserted
    characters. *)
Fixpoint lead_inserted (ds : list diff) : nat :=
  match ds with
  | (DIFF_INSERT, t) :: r => length t + lead_inserted r
  | (DIFF_DELETE, _) :: r => lead_inserted r
  | _ => 0
  end.

(** Modelled from the spec: the noise-elimination step of
    [diff_match_patch.diff_cleanupSemantic], absent from the sources.  A
    short Equal span between two edits is noise: when it is no longer than
    the edits before it and no longer than the edits after it, it is taken
    into the surrounding edits and becomes a deletion and an insertion of the
    same text, which keeps both sides of the script (in the example of
    section 8 the Equal "a" of sat/ran goes into Delete "sat" and Insert
    "ran").  [pd] and [pi] count the deleted and inserted characters of the
    run of edits that ends here. *)
Fixpoint eliminate (pd pi : nat) (ds : list diff) : list diff :=
  match ds with
  | [] => []
  | (DIFF_EQUAL, e) :: r =>
      if (length e <=? Nat.max pd pi)
         && (length e <=? Nat.max (lead_deleted r) (lead_inserted r))
      then (DIFF_DELETE, e) :: (DIFF_INSERT, e)
             :: eliminate (pd + length e) (pi + length e) r
      else (DIFF_EQUAL, e) :: eliminate 0 0 r
  | (DIFF_DELETE, t) :: r => (DIFF_DELETE, t) :: eliminate (pd + length t) pi r
  | (DIFF_INSERT, t) :: r => (DIFF_INSERT, t) :: eliminate pd (pi + length t) r
  end.

(** Modelled from the spec: the character classes of the boundary search of
    the cleanup pass (absent from the sources): white space, and the word
    characters (ASCII letters and digits, and every character past ASCII);
    what is neither counts as punctuation.  This is the white space. *)
Definition is_space (c : char) : bool :=
  N.eqb c 32 || (N.leb 9 c && N.leb c 13).

(** Modelled from the spec: the word characters of the boundary search of
    the cleanup pass (absent from the sources). *)
Definition is_alnum (c : char) : bool :=
  (N.leb 48 c && N.leb c 57) || (N.leb 65 c && N.leb c 90)
  || (N.leb 97 c && N.leb c 122) || N.leb 128 c.

(** Modelled from the spec: the value of a boundary between the texts [one]
    and [two] (the scoring of [diff_match_patch], absent from the sources):
    the edge of the text is best, then white space, then punctuation. *)
Definition boundary_score (one two : text) : nat :=
  match rev one, two with
  | [], _ | _, [] => 3
  | c1 :: _, c2 :: _ =>
      if is_space c1 || is_space c2 then 2
      else if negb (is_alnum c1) || negb (is_alnum c2) then 1
      else 0
  end.

(** Modelled from the spec: the value of a position of the edit [x] between
    the Equal spans [e1] and [e2], the sum over its two boundaries. *)
Definition shift_score (e1 x e2 : text) : nat :=
  boundary_score e1 x + boundary_score x e2.

(** Modelled from the spec: the first half of the boundary shift of the
    cleanup pass (absent from the sources).  It moves the edit [x] to the
    left as far as it goes; [re1] and [rx] are the preceding Equal span and
    the edit, both reversed. *)
Fixpoint shift_left (re1 rx e2 : text) : text * text * text :=
  match re1, rx with
  | c :: re1', d :: rx' =>
      if N.eqb c d then shift_left re1' (rx' ++ [d]) (d :: e2)
      else (rev re1, rev rx, e2)
  | _, _ => (rev re1, rev rx, e2)
  end.

(** Modelled from the spec: the second half of the boundary shift of the
    cleanup pass (absent from the sources).  It steps the edit to the right
    one character at a time and keeps the position of the highest score, the
    earlier one on ties. *)
Fixpoint shift_right (e1 x e2 : text) (best : nat * (text * text * text))
  : text * text * text :=
  match e2, x with
  | b :: e2', a :: x' =>
      if N.eqb a b then
        let e1n := e1 ++ [a] in
        let xn := x' ++ [b] in
        let sc := shift_score e1n xn e2' in
        shift_right e1n xn e2'
          (if fst best <? sc then (sc, (e1n, xn, e2')) else best)
      else snd best
  | _, _ => snd best
  end.

(** Modelled from the spec: the position that the boundary shift of the
    cleanup pass (absent from the sources) chooses for a single edit. *)
Definition best_shift (e1 x e2 : text) : text * text * text :=
  let '(l1, lx, l2) := shift_left (rev e1) (rev x) e2 in
  shift_right l1 lx l2 (shift_score l1 lx l2, (l1, lx, l2)).

(** A shifted triple spells the same old and new text as the triple
    [(e1, x, e2)] it comes from. *)
Definition shift_ok (e1 x e2 : text) (r : text * text * text) : Prop :=
  let '(a, b, c) := r in
  a ++ b ++ c = e1 ++ x ++ e2 /\ a ++ c = e1 ++ e2.

(** Modelled from the spec: the boundary-shifting step of
    [diff_match_patch.diff_cleanupSemantic], absent from the sources.  A
    single edit between two Equal spans is slid sideways to the best
    white-space or punctuation boundary; its length, and so the net
    character delta, stays as it is.  [pending] is the Equal span read last
    and not yet written. *)
Fixpoint lossless (pending : option text) (ds : list diff) : list diff :=
  let flush :=
    match pending with Some e => [(DIFF_EQUAL, e)] | None => [] end in
  match ds with
  | [] => flush
  | (DIFF_EQUAL, e) :: r => flush ++ lossless (Some e) r
  | (o, x) :: r =>
      match pending, r with
      | Some e1, (DIFF_EQUAL, e2) :: r' =>
          let '(e1', x', e2') := best_shift e1 x e2 in
          (DIFF_EQUAL, e1') :: (o, x') :: lossless (Some e2') r'
      | _, _ => flush ++ (o, x) :: lossless None r
      end
  end.

(** Modelled from the spec: [diff_match_patch.diff_cleanupSemantic], absent
    from the sources: merge, take the noise Equal spans into the edits around
    them, merge, shift single edits to word boundaries, merge. *)
Definition diff_cleanupSemantic (ds : list diff) : list diff :=
  diff_cleanupMerge
    (lossless None
       (diff_cleanupMerge (eliminate 0 0 (diff_cleanupMerge ds)))).

(** The script that [generate_synopsis_html] renders. *)
Definition compute (old_text new_text : text) : list diff :=
  diff_cleanupSemantic (diff_main old_text new_text).


(** ** [generate_synopsis_html] *)

Record synopsis : Type := mk_synopsis {
  old_version_html : text;
  new_version_html : text
}.

Definition generate_synopsis_html (old_text new_text : text) : synopsis :=
  let diffs := diff_cleanupSemantic (diff_main old_text new_text) in
  let '(old_html, new_html) := render diffs in
  {| old_version_html := old_html; new_version_html := new_html |}.

(** ** Reading a rendered string back

    Stripping the annotation wrappers removes the three tags that the
    renderer writes; undoing the escaping reads the four entities back, in
    one pass from the left.  In both scans [skip] counts the characters of
    the current tag or entity that are still to be dropped. *)

Fixpoint strip_scan (skip : nat) (s : text) : text :=
  match s with
  | [] => []
  | c :: s' =>
      match skip with
      | S k => strip_scan k s'
      | O =>
          if starts_with span_deleted s then strip_scan (length span_deleted - 1) s'
          else if starts_with span_inserted s then strip_scan (length span_inserted - 1) s'
          else if starts_with span_close s then strip_scan (length span_close - 1) s'
          else c :: strip_scan 0 s'
      end
  end.

Definition strip_annotations (s : text) : text := strip_scan 0 s.

Fixpoint unescape_scan (skip : nat) (s : text) : text :=
  match s with
  | [] => []
  | c :: s' =>
      match skip with
      | S k => unescape_scan k s'
      | O =>
          if starts_with lit_amp s then c_amp :: unescape_scan (length lit_amp - 1) s'
          else if starts_with lit_lt s then c_lt :: unescape_scan (length lit_lt - 1) s'
          else if starts_with lit_gt s then c_gt :: unescape_scan (length lit_gt - 1) s'
          else if starts_with lit_br s then c_nl :: unescape_scan (length lit_br - 1) s'
          else c :: unescape_scan 0 s'
      end
  end.

Definition unescape (s : text) : text := unescape_scan 0 s.

(** What [safe_data] amounts to for one character. *)
Definition escape_char (c : char) : text :=
  if N.eqb c c_amp then lit_amp
  else if N.eqb c c_lt then lit_lt
  else if N.eqb c c_gt then lit_gt
  else if N.eqb c c_nl then lit_br
  else [c].

(** What one operation adds to the old and to the new output stream. *)
Definition old_piece (d : diff) : text :=
  match fst d with
  | DIFF_DELETE => span_deleted ++ safe_data (snd d) ++ span_close
  | DIFF_INSERT => []
  | DIFF_EQUAL => safe_data (snd d)
  end.

Definition new_piece (d : diff) : text :=
  match fst d with
  | DIFF_DELETE => []
  | DIFF_INSERT => span_inserted ++ safe_data (snd d) ++ span_close
  | DIFF_EQUAL => safe_data (snd d)
  end.


(** ** The request layer: [get_synopsis_api] *)

Record date : Type := mk_date { year : Z; month : Z; day : Z }.

Definition date_eqb (a b : date) : bool :=
  Z.eqb (year a) (year b) && Z.eqb (month a) (month b) && Z.eqb (day a) (day b).

(** The three tables of the database, as the models [Law], [LawVersion] and
    [Paragraph] declare them. *)
Record Law : Type := mk_Law {
  law_id : Z;
  short_name : text;
  full_name_de : text;
  full_name_zh : option text
}.

Record LawVersion : Type := mk_LawVersion {
  version_id : Z;
  version_law_id : Z;
  version_date : date;
  description : option text
}.

Record Paragraph : Type := mk_Paragraph {
  paragraph_id : Z;
  paragraph_version_id : Z;
  paragraph_number : text;
  content_de : text;
  content_zh : option text
}.

Record database : Type := mk_database {
  laws : list Law;
  law_versions : list LawVersion;
  paragraphs : list Paragraph
}.

(** [query(Paragraph).join(LawVersion).join(Law).filter(...)]: a paragraph
    row is kept when its version row has the date asked for and the law row
    of that version has the short name asked for. *)
Definition paragraph_matches (db : database) (name : text) (d : date)
    (num : text) (p : Paragraph) : bool :=
  text_eqb (paragraph_number p) num
  && existsb
       (fun v =>
          Z.eqb (version_id v) (paragraph_version_id p)
          && date_eqb (version_date v) d
          && existsb
               (fun l =>
                  Z.eqb (law_id l) (version_law_id v)
                  && text_eqb (short_name l) name)
               (laws db))
       (law_versions db).

(** [.first()]: the first row that is kept, [None] when there is none. *)
Definition query_first (db : database) (name : text) (d : date) (num : text)
  : option Paragraph :=
  find (paragraph_matches db name d num) (paragraphs db).

Record version_json : Type := mk_version_json {
  json_date : text;
  content_html_de : text;
  content_html_zh : text
}.

Inductive json : Type :=
| json_error (message : text)
| json_synopsis (law paragraph : text) (version_1 version_2 : version_json).

(** A Flask response: the body and the HTTP status. *)
Definition response : Type := (json * Z)%type.

Definition msg_invalid_date : text :=
  [26085; 26399; 26684; 24335; 26080; 25928; 65292; 35831; 20351; 29992; 32;
   89; 89; 89; 89; 45; 77; 77; 45; 68; 68; 32; 26684; 24335; 12290]%N.

Definition msg_not_found : text :=
  [26410; 25214; 21040; 25351; 23450; 30340; 27861; 24459; 26465; 25991;
   29256; 26412; 12290]%N.

(** [content or ""]. *)
Definition or_empty (content : option text) : text :=
  match content with
  | Some t => t
  | None => []
  end.

Section Request.

(** [date.fromisoformat], [None] standing for its [ValueError], and
    [date.isoformat]. *)
Variable fromisoformat : text -> option date.
Variable isoformat : date -> text.

Variable db : database.

Definition get_synopsis_api
    (law_short_name v1_date_str v2_date_str paragraph_num : text) : response :=
  let paragraph_num_decoded := replace (str "%20") (str " ") paragraph_num in
  match fromisoformat v1_date_str with
  | None => (json_error msg_invalid_date, 400%Z)
  | Some v1_date =>
      match fromisoformat v2_date_str with
      | None => (json_error msg_invalid_date, 400%Z)
      | Some v2_date =>
          let p1 := query_first db law_short_name v1_date paragraph_num_decoded in
          let p2 := query_first db law_short_name v2_date paragraph_num_decoded in
          match p1, p2 with
          | Some r1, Some r2 =>
              let synopsis_data_de :=
                generate_synopsis_html (content_de r1) (content_de r2) in
              let synopsis_data_zh :=
                generate_synopsis_html (or_empty (content_zh r1))
                                       (or_empty (content_zh r2)) in
              (json_synopsis law_short_name paragraph_num_decoded
                 {| json_date := isoformat v1_date;
                    content_html_de := old_version_html synopsis_data_de;
                    content_html_zh := old_version_html synopsis_data_zh |}
                 {| json_date := isoformat v2_date;
                    content_html_de := new_version_html synopsis_data_de;
                    content_html_zh := new_version_html synopsis_data_zh |},
               200%Z)
          | _, _ => (json_error msg_not_found, 404%Z)
          end
      end
  end.

End Request.

(** A reader of [YYYY-MM-DD] dates with ASCII digits, for running the request
    layer on concrete requests. *)
Definition digit_of (c : char) : option Z :=
  if N.leb 48 c && N.leb c 57 then Some (Z.of_N c - 48)%Z else None.

Definition sample_fromisoformat (s : text) : option date :=
  match List.map digit_of s with
  | [Some y1; Some y2; Some y3; Some y4; None; Some m1; Some m2; None;
     Some d1; Some d2] =>
      let y := (1000 * y1 + 100 * y2 + 10 * y3 + y4)%Z in
      let m := (10 * m1 + m2)%Z in
      let d := (10 * d1 + d2)%Z in
      if starts_with (str "-") (skipn 4 s) && starts_with (str "-") (skipn 7 s)
         && (1 <=? y)%Z && (1 <=? m)%Z && (m <=? 12)%Z && (1 <=? d)%Z && (d <=? 31)%Z
      then Some {| year := y; month := m; day := d |}
      else None
  | _ => None
  end.

Definition digit_char (z : Z) : char := Z.to_N (48 + z mod 10).

Definition sample_isoformat (d : date) : text :=
  [digit_char (year d / 1000); digit_char (year d / 100);
   digit_char (year d / 10); digit_char (year d); 45%N;
   digit_char (month d / 10); digit_char (month d); 45%N;
   digit_char (day d / 10); digit_char (day d)].

(** A small database of the shape that [manage_data.py] fills: the law EStG
    with the versions of 2019-01-01 and 2020-01-01, the law UStG with the
    version of 2020-01-01; the texts are cut short. *)
Definition par_1 : text := Eval cbv in [167%N] ++ str " 1".
Definition par_2 : text := Eval cbv in [167%N] ++ str " 2".

Definition sample_db : database :=
  {| laws :=
       [ mk_Law 1 (str "EStG") (str "Einkommensteuergesetz") None;
         mk_Law 2 (str "UStG") (str "Umsatzsteuergesetz") None ];
     law_versions :=
       [ mk_LawVersion 1 1 (mk_date 2019 1 1) None;
         mk_LawVersion 2 1 (mk_date 2020 1 1) None;
         mk_LawVersion 3 2 (mk_date 2020 1 1) None ];
     paragraphs :=
       [ mk_Paragraph 1 1 par_1 (str "sind pflichtig.") (Some (str "a"));
         mk_Paragraph 2 1 par_2 (str "im Ausland wohnen.") None;
         mk_Paragraph 3 2 par_1 (str "sind voll pflichtig.") (Some (str "ab"));
         mk_Paragraph 4 2 par_2 (str "im Ausland wohnen und stehen.") None;
         mk_Paragraph 5 3 par_1 (str "Der Umsatzsteuer unterliegen") None ] |}.

(** ** The other routes of [app.py]: [get_laws] and [get_law_details] *)

Record law_json : Type := mk_law_json {
  json_short_name : text;
  json_full_name_de : text
}.

(** [Law.query.all()] and the list comprehension over it. *)
Definition get_laws (db : database) : list law_json :=
  List.map
    (fun law =>
       {| json_short_name := short_name law; json_full_name_de := full_name_de law |})
    (laws db).

(** The order of texts that [ORDER BY] uses on a string column: character by
    character, a proper prefix first. *)
Fixpoint text_compare (a b : text) : comparison :=
  match a, b with
  | [], [] => Eq
  | [], _ :: _ => Lt
  | _ :: _, [] => Gt
  | x :: a', y :: b' =>
      match N.compare x y with
      | Eq => text_compare a' b'
      | Lt => Lt
      | Gt => Gt
      end
  end.

(** The order of dates: by year, then month, then day. *)
Definition date_compare (a b : date) : comparison :=
  match Z.compare (year a) (year b) with
  | Eq =>
      match Z.compare (month a) (month b) with
      | Eq => Z.compare (day a) (day b)
      | c => c
      end
  | c => c
  end.

(** [SELECT DISTINCT ... ORDER BY paragraph_number]: the values in ascending
    order, each one once. *)
Fixpoint insert_distinct (t : text) (l : list text) : list text :=
  match l with
  | [] => [t]
  | u :: r =>
      match text_compare t u with
      | Lt => t :: u :: r
      | Eq => u :: r
      | Gt => u :: insert_distinct t r
      end
  end.

Definition distinct_ascending (l : list text) : list text :=
  fold_right insert_distinct [] l.

(** [order_by='LawVersion.version_date.desc()'] of the relationship
    [Law.versions]: the newest version first. *)
Fixpoint insert_descending (v : LawVersion) (l : list LawVersion) : list LawVersion :=
  match l with
  | [] => [v]
  | w :: r =>
      match date_compare (version_date v) (version_date w) with
      | Lt => w :: insert_descending v r
      | _ => v :: w :: r
      end
  end.

Definition newest_first (l : list LawVersion) : list LawVersion :=
  fold_right insert_descending [] l.

(** [law.versions]: the version rows of the law. *)
Definition versions_of (db : database) (law : Law) : list LawVersion :=
  newest_first
    (filter (fun v => Z.eqb (version_law_id v) (law_id law)) (law_versions db)).

(** [query(Paragraph.paragraph_number).distinct().join(LawVersion)
    .filter(LawVersion.law_id == law.id).order_by(Paragraph.paragraph_number)]. *)
Definition paragraph_numbers_of (db : database) (law : Law) : list text :=
  distinct_ascending
    (List.map paragraph_number
       (filter
          (fun p =>
             existsb
               (fun v =>
                  Z.eqb (version_id v) (paragraph_version_id p)
                  && Z.eqb (version_law_id v) (law_id law))
               (law_versions db))
          (paragraphs db))).

(** The answer of [get_law_details]: the 404 of [first_or_404], or the
    versions (date and description) and the paragraph numbers. *)
Inductive details_response : Type :=
| details_not_found
| details_ok (versions : list (text * option text)) (paragraph_numbers : list text).

Definition get_law_details (isoformat : date -> text) (db : database)
    (law_short_name : text) : details_response :=
  match find (fun l => text_eqb (short_name l) law_short_name) (laws db) with
  | None => details_not_found
  | Some law =>
      details_ok
        (List.map (fun v => (isoformat (version_date v), description v))
           (versions_of db law))
        (paragraph_numbers_of db law)
  end.

(** ** [manage_data.py]: filling the database

    [LAWS_DATA] is a dictionary of dictionaries; a dictionary is modelled by
    the list of its items in insertion order.  The key 'zh' of a paragraph
    may be missing ([p_content.get('zh', '')]); the other keys are read with
    [[...]] and are always there. *)

Record paragraph_data : Type := mk_paragraph_data {
  data_de : text;
  data_zh : option text
}.

Record version_data : Type := mk_version_data {
  data_description : text;
  data_paragraphs : list (text * paragraph_data)
}.

Record law_data : Type := mk_law_data {
  data_full_name_de : text;
  data_full_name_zh : text;
  data_versions : list (text * version_data)
}.

Definition laws_data : Type := list (text * law_data).

(** [db.drop_all(); db.create_all()]: three empty tables. *)
Definition clear_and_init_db (db : database) : database :=
  {| laws := []; law_versions := []; paragraphs := [] |}.

(** The integer primary key that SQLite gives a new row: 1 in an empty
    table, otherwise one more than the largest key. *)
Definition next_id (ids : list Z) : Z :=
  match ids with
  | [] => 1%Z
  | i :: r => (fold_left Z.max r i + 1)%Z
  end.

(** A [Paragraph] object that was added to the session and is not yet
    written: it has no key. *)
Record new_paragraph : Type := mk_new_paragraph {
  new_version_id : Z;
  new_number : text;
  new_de : text;
  new_zh : option text
}.

Definition paragraph_object (version : Z) (item : text * paragraph_data)
  : new_paragraph :=
  {| new_version_id := version;
     new_number := fst item;
     new_de := data_de (snd item);
     new_zh := Some (or_empty (data_zh (snd item))) |}.

(** What a commit does with the pending paragraphs: each is written as a
    new row, in the order in which it was added. *)
Definition flush_paragraphs (pending : list new_paragraph) (rows : list Paragraph)
  : list Paragraph :=
  fold_left
    (fun rows np =>
       rows ++ [ {| paragraph_id := next_id (List.map paragraph_id rows);
                    paragraph_version_id := new_version_id np;
                    paragraph_number := new_number np;
                    content_de := new_de np;
                    content_zh := new_zh np |} ])
    pending rows.

Inductive populate_error : Type := ValueError | IntegrityError.

Section Populate.

(** [date.fromisoformat], [None] standing for its [ValueError]. *)
Variable fromisoformat : text -> option date.

(** The loop over the versions of one law.  The state is the database as
    committed and the paragraphs pending in the session; each version is
    committed at once, which also writes the paragraphs of the version
    before.  When a date is not read the script stops: what is pending is
    never written. *)
Fixpoint populate_versions (law : Z) (versions : list (text * version_data))
    (db : database) (pending : list new_paragraph)
  : database * list new_paragraph * option populate_error :=
  match versions with
  | [] => (db, pending, None)
  | (version_date_str, data) :: rest =>
      match fromisoformat version_date_str with
      | None => (db, pending, Some ValueError)
      | Some d =>
          let version := next_id (List.map version_id (law_versions db)) in
          let db' :=
            {| laws := laws db;
               law_versions :=
                 law_versions db
                 ++ [ {| version_id := version;
                         version_law_id := law;
                         version_date := d;
                         description := Some (data_description data) |} ];
               paragraphs := flush_paragraphs pending (paragraphs db) |} in
          populate_versions law rest db'
            (List.map (paragraph_object version) (data_paragraphs data))
      end
  end.

(** The loop over the laws.  A law whose short name is in the table already
    breaks the unique constraint of [Law.short_name] at its commit. *)
Fixpoint populate_laws (data : laws_data) (db : database)
  : database * option populate_error :=
  match data with
  | [] => (db, None)
  | (law_short_name, law) :: rest =>
      if existsb (fun l => text_eqb (short_name l) law_short_name) (laws db)
      then (db, Some IntegrityError)
      else
        let id := next_id (List.map law_id (laws db)) in
        let db1 :=
          {| laws :=
               laws db
               ++ [ {| law_id := id;
                       short_name := law_short_name;
                       full_name_de := data_full_name_de law;
                       full_name_zh := Some (data_full_name_zh law) |} ];
             law_versions := law_versions db;
             paragraphs := paragraphs db |} in
        match populate_versions id (data_versions law) db1 [] with
        | (db2, pending, None) =>
            populate_laws rest
              {| laws := laws db2;
                 law_versions := law_versions db2;
                 paragraphs := flush_paragraphs pending (paragraphs db2) |}
        | (db2, _, Some e) => (db2, Some e)
        end
  end.

(** [populate_data_from_structure], with [LAWS_DATA] as an argument: the
    database as it is left, and the exception that stopped the script, if
    any. *)
Definition populate_data_from_structure (data : laws_data) (db : database)
  : database * option populate_error :=
  populate_laws data db.

(** The main block of [manage_data.py]. *)
Definition manage_data_main (data : laws_data) (db : database)
  : database * option populate_error :=
  populate_data_from_structure data (clear_and_init_db db).

End Populate.

(** A row without its key. *)
Definition paragraph_fields (p : Paragraph) : new_paragraph :=
  {| new_version_id := paragraph_version_id p;
     new_number := paragraph_number p;
     new_de := content_de p;
     new_zh := content_zh p |}.

(** Every version refers to a law of the table and every paragraph to a
    version of the table, and no key is used twice. *)
Definition referential_integrity (db : database) : Prop :=
  NoDup (List.map law_id (laws db))
  /\ NoDup (List.map version_id (law_versions db))
  /\ NoDup (List.map paragraph_id (paragraphs db))
  /\ (forall v, In v (law_versions db) ->
        exists l, In l (laws db) /\ law_id l = version_law_id v)
  /\ (forall p, In p (paragraphs db) ->
        exists v, In v (law_versions db) /\ version_id v = paragraph_version_id p).

(** A dictionary has every key once. *)
Definition keys_once (A : Type) (items : list (text * A)) : Prop :=
  NoDup (List.map fst items).

(** [LAWS_DATA] with a part of the sample of [manage_data.py]: the law EStG
    in two versions and the law UStG in one, the texts cut short. *)
Definition sample_data : laws_data :=
  [ (str "EStG",
     {| data_full_name_de := str "Einkommensteuergesetz";
        data_full_name_zh := str "ESt";
        data_versions :=
          [ (str "2019-01-01",
             {| data_description := str "Fassung 2019";
                data_paragraphs :=
                  [ (par_1, mk_paragraph_data (str "sind pflichtig.") (Some (str "a")));
                    (par_2, mk_paragraph_data (str "im Ausland wohnen.") None) ] |});
            (str "2020-01-01",
             {| data_description := str "Fassung 2020";
                data_paragraphs :=
                  [ (par_1, mk_paragraph_data (str "sind voll pflichtig.") (Some (str "ab")));
                    (par_2, mk_paragraph_data (str "im Ausland wohnen und stehen.") None) ] |}) ] |});
    (str "UStG",
     {| data_full_name_de := str "Umsatzsteuergesetz";
        data_full_name_zh := str "USt";
        data_versions :=
          [ (str "2020-01-01",
             {| data_description := str "Fassung vom 01.01.2020";
                data_paragraphs :=
                  [ (par_1, mk_paragraph_data (str "Der Umsatzsteuer unterliegen") None) ] |}) ] |}) ].

(** A character that the escaping leaves alone. *)
Definition plain_char (c : char) : Prop :=
  c <> c_amp /\ c <> c_lt /\ c <> c_gt /\ c <> c_nl.

(** The join and filter of the lookup, as a statement about the rows. *)
Definition row_of (db : database) (name : text) (d : date) (num : text)
    (p : Paragraph) : Prop :=
  In p (paragraphs db)
  /\ paragraph_number p = num
  /\ exists v l,
       In v (law_versions db) /\ In l (laws db)
       /\ version_id v = paragraph_version_id p
       /\ version_date v = d
       /\ law_id l = version_law_id v
       /\ short_name l = name.

(** A paragraph row with a NULL Chinese text replaced by the empty text. *)
Definition null_zh_as_empty (p : Paragraph) : Paragraph :=
  {| paragraph_id := paragraph_id p;
     paragraph_version_id := paragraph_version_id p;
     paragraph_number := paragraph_number p;
     content_de := content_de p;
     content_zh := Some (or_empty (content_zh p)) |}.

Definition without_null_zh (db : database) : database :=
  {| laws := laws db;
     law_versions := law_versions db;
     paragraphs := List.map null_zh_as_empty (paragraphs db) |}.

(** The strict order of texts, and "not older than" for version rows. *)
Definition text_lt (a b : text) : Prop := text_compare a b = Lt.

Definition not_older (v w : LawVersion) : Prop :=
  date_compare (version_date v) (version_date w) <> Lt.

(** Within one law no two date strings are read as the same date. *)
Definition dates_once (fromisoformat : text -> option date)
    (versions : list (text * version_data)) : Prop :=
  forall ds1 vd1 ds2 vd2 d,
    In (ds1, vd1) versions -> In (ds2, vd2) versions ->
    fromisoformat ds1 = Some d -> fromisoformat ds2 = Some d -> ds1 = ds2.

(** [LAWS_DATA] is a dictionary of dictionaries: at every level a key occurs
    once, and the versions of a law have different dates. *)
Definition well_keyed (fromisoformat : text -> option date) (data : laws_data)
  : Prop :=
  keys_once data
  /\ forall name law,
       In (name, law) data ->
       keys_once (data_versions law)
       /\ dates_once fromisoformat (data_versions law)
       /\ forall ds vd,
            In (ds, vd) (data_versions law) -> keys_once (data_paragraphs vd).

(** The paragraph [np], written or pending, comes from an item of the data:
    its version row and the law row of that version are in the tables, and
    law name, date, number and texts are those of the item. *)
Definition stored_from (fromisoformat : text -> option date) (data : laws_data)
    (db : database) (np : new_paragraph) : Prop :=
  exists v l law ds vd item,
    In v (law_versions db) /\ In l (laws db)
    /\ version_id v = new_version_id np
    /\ law_id l = version_law_id v
    /\ In (short_name l, law) data
    /\ In (ds, vd) (data_versions law)
    /\ fromisoformat ds = Some (version_date v)
    /\ In (new_number np, item) (data_paragraphs vd)
    /\ new_de np = data_de item
    /\ new_zh np = Some (or_empty (data_zh item)).

(** * Properties *)

(** ** [str.replace] on one character, and the escaping *)

Lemma starts_with_head_neq (a c : char) (p s : text) :
  a <> c -> starts_with (a :: p) (c :: s) = false.
Proof.
  intros H. simpl. destruct (N.eqb_spec a c); [contradiction | reflexivity].
Qed.

Lemma replace_char (k : char) (new s : text) :
  replace [k] new s = flat_map (fun c => if N.eqb k c then new else [c]) s.
Proof.
  unfold replace.
  induction s as [| c s IH]; [reflexivity |].
  cbn [replace_scan flat_map length Nat.sub starts_with].
  destruct (N.eqb k c); cbn [andb]; rewrite IH; reflexivity.
Qed.

Lemma flat_map_compose (A B C : Type) (f : A -> list B) (g : B -> list C) (l : list A) :
  flat_map g (flat_map f l) = flat_map (fun a => flat_map g (f a)) l.
Proof.
  induction l as [| a l IH]; [reflexivity |].
  cbn [flat_map]. rewrite flat_map_app, IH. reflexivity.
Qed.

Ltac char_cases c :=
  destruct (N.eqb_spec c c_amp) as [-> | ?];
  [| destruct (N.eqb_spec c c_lt) as [-> | ?];
     [| destruct (N.eqb_spec c c_gt) as [-> | ?];
        [| destruct (N.eqb_spec c c_nl) as [-> | ?]]]].

Lemma eqb_neq_sym (k c : char) : c <> k -> N.eqb k c = false.
Proof. intros H. apply N.eqb_neq. congruence. Qed.

Lemma safe_data_escape_char (s : text) :
  safe_data s = flat_map escape_char s.
Proof.
  unfold safe_data. rewrite !replace_char, !flat_map_compose.
  apply flat_map_ext. intros c. unfold escape_char.
  char_cases c; try reflexivity.
  rewrite (@eqb_neq_sym c_amp c) by assumption. cbn [flat_map app].
  rewrite (@eqb_neq_sym c_lt c) by assumption. cbn [flat_map app].
  rewrite (@eqb_neq_sym c_gt c) by assumption. cbn [flat_map app].
  rewrite (@eqb_neq_sym c_nl c) by assumption. reflexivity.
Qed.

Lemma safe_data_app (s t : text) :
  safe_data (s ++ t) = safe_data s ++ safe_data t.
Proof. rewrite !safe_data_escape_char. apply flat_map_app. Qed.

Lemma unescape_scan_char (c : char) (rest : text) :
  unescape_scan 0 (escape_char c ++ rest) = c :: unescape_scan 0 rest.
Proof.
  unfold escape_char.
  char_cases c; try reflexivity.
  cbn [app unescape_scan]. unfold lit_amp, lit_lt, lit_gt, lit_br.
  rewrite !starts_with_head_neq by (unfold c_amp, c_lt in *; congruence).
  reflexivity.
Qed.

Lemma unescape_safe_data (s : text) : unescape (safe_data s) = s.
Proof.
  rewrite safe_data_escape_char. unfold unescape.
  induction s as [| c s IH]; [reflexivity |].
  cbn [flat_map]. rewrite unescape_scan_char, IH. reflexivity.
Qed.

Lemma strip_scan_char (c : char) (rest : text) :
  strip_scan 0 (escape_char c ++ rest) = escape_char c ++ strip_scan 0 rest.
Proof.
  unfold escape_char.
  char_cases c; try reflexivity.
  cbn [app strip_scan]. unfold span_deleted, span_inserted, span_close.
  rewrite !starts_with_head_neq by (unfold c_lt in *; congruence).
  reflexivity.
Qed.

Lemma strip_scan_safe_data (s rest : text) :
  strip_scan 0 (safe_data s ++ rest) = safe_data s ++ strip_scan 0 rest.
Proof.
  rewrite safe_data_escape_char.
  induction s as [| c s IH]; [reflexivity |].
  cbn [flat_map]. rewrite <- !app_assoc, strip_scan_char, IH. reflexivity.
Qed.

Lemma strip_scan_span_close (rest : text) :
  strip_scan 0 (span_close ++ rest) = strip_scan 0 rest.
Proof. reflexivity. Qed.

Lemma strip_scan_span_deleted (rest : text) :
  strip_scan 0 (span_deleted ++ rest) = strip_scan 0 rest.
Proof. reflexivity. Qed.

Lemma strip_scan_span_inserted (rest : text) :
  strip_scan 0 (span_inserted ++ rest) = strip_scan 0 rest.
Proof. reflexivity. Qed.

(** ** The renderer *)

Lemma render_from (ds : list diff) (acc : text * text) :
  fold_left render_step ds acc
  = (fst acc ++ flat_map old_piece ds, snd acc ++ flat_map new_piece ds).
Proof.
  revert acc.
  induction ds as [| [o data] ds IH]; intros [old_html new_html].
  - cbn. rewrite !app_nil_r. reflexivity.
  - cbn [fold_left]. rewrite IH.
    destruct o; cbn [render_step fst snd flat_map old_piece new_piece];
      rewrite <- ?app_assoc; reflexivity.
Qed.

Lemma render_pieces (ds : list diff) :
  render ds = (flat_map old_piece ds, flat_map new_piece ds).
Proof. unfold render. rewrite render_from. reflexivity. Qed.

(** C2: the renderer handles the operations in order.  The output for a
    script extended by one operation is the output for the script with that
    operation's contribution appended: for Equal the escaped text, unchanged,
    on both streams; for Delete the escaped text inside the deleted
    annotation on the old stream only; for Insert the escaped text inside the
    inserted annotation on the new stream only.  Hence each stream is the
    concatenation of the contributions, in script order. *)
Theorem render_routes_operations :
  render [] = ([], [])
  /\ (forall (ds : list diff) (data : text),
        render (ds ++ [(DIFF_EQUAL, data)])
        = (fst (render ds) ++ safe_data data, snd (render ds) ++ safe_data data))
  /\ (forall (ds : list diff) (data : text),
        render (ds ++ [(DIFF_DELETE, data)])
        = (fst (render ds) ++ span_deleted ++ safe_data data ++ span_close,
           snd (render ds)))
  /\ (forall (ds : list diff) (data : text),
        render (ds ++ [(DIFF_INSERT, data)])
        = (fst (render ds),
           snd (render ds) ++ span_inserted ++ safe_data data ++ span_close))
  /\ (forall ds : list diff,
        render ds = (flat_map old_piece ds, flat_map new_piece ds)).
Proof.
  split; [reflexivity |].
  repeat split; intros; rewrite ?render_pieces, ?flat_map_app;
    cbn [flat_map fst snd old_piece new_piece]; rewrite ?app_nil_r;
    reflexivity.
Qed.

(** C10: the escape-and-normalize step is injective, because it has a left
    inverse.  A literal "<br>" of the input becomes "&lt;br&gt;", while a
    newline becomes "<br>": the two never meet. *)
Theorem safe_data_injective :
  (forall a b : text, safe_data a = safe_data b -> a = b)
  /\ safe_data (str "<br>") = str "&lt;br&gt;"
  /\ safe_data [c_nl] = str "<br>"
  /\ (forall s : text, unescape (safe_data s) = s).
Proof.
  split; [| split; [reflexivity | split; [reflexivity | apply unescape_safe_data]]].
  intros a b H.
  rewrite <- (unescape_safe_data a), <- (unescape_safe_data b), H.
  reflexivity.
Qed.

Lemma safe_data_injective_witness :
  safe_data (str "a<b") = safe_data (str "a<b") /\ str "a<b" = str "a<b".
Proof.
  split; [reflexivity |].
  apply (proj1 safe_data_injective (str "a<b") (str "a<b")). reflexivity.
Defined.

(** ** Reading the rendered streams back *)

Lemma strip_old_pieces (ds : list diff) :
  strip_annotations (flat_map old_piece ds) = safe_data (old_side ds).
Proof.
  unfold strip_annotations, old_side.
  induction ds as [| [o data] ds IH]; [reflexivity |].
  cbn [flat_map]. unfold old_piece at 1, old_part at 1. cbn [fst snd].
  destruct o.
  - rewrite <- !app_assoc, strip_scan_span_deleted, strip_scan_safe_data,
      strip_scan_span_close, IH, safe_data_app. reflexivity.
  - cbn [app]. exact IH.
  - rewrite strip_scan_safe_data, IH, safe_data_app. reflexivity.
Qed.

Lemma strip_new_pieces (ds : list diff) :
  strip_annotations (flat_map new_piece ds) = safe_data (new_side ds).
Proof.
  unfold strip_annotations, new_side.
  induction ds as [| [o data] ds IH]; [reflexivity |].
  cbn [flat_map]. unfold new_piece at 1, new_part at 1. cbn [fst snd].
  destruct o.
  - cbn [app]. exact IH.
  - rewrite <- !app_assoc, strip_scan_span_inserted, strip_scan_safe_data,
      strip_scan_span_close, IH, safe_data_app. reflexivity.
  - rewrite strip_scan_safe_data, IH, safe_data_app. reflexivity.
Qed.

Lemma render_read_back (ds : list diff) :
  unescape (strip_annotations (fst (render ds))) = old_side ds
  /\ unescape (strip_annotations (snd (render ds))) = new_side ds.
Proof.
  rewrite render_pieces. cbn [fst snd].
  rewrite strip_old_pieces, strip_new_pieces, !unescape_safe_data.
  split; reflexivity.
Qed.

(** ** The diff engine: both sides of the script are kept *)

Lemma ses_nil_r (a : text) :
  ses a [] = List.map (fun z => (DIFF_DELETE, [z])) a.
Proof. destruct a; reflexivity. Qed.

Lemma ses_cons (x y : char) (a b : text) :
  ses (x :: a) (y :: b)
  = if N.eqb x y then (DIFF_EQUAL, [x]) :: ses a b
    else
      let del := (DIFF_DELETE, [x]) :: ses a (y :: b) in
      let ins := (DIFF_INSERT, [y]) :: ses (x :: a) b in
      if edit_cost ins <? edit_cost del then ins else del.
Proof. reflexivity. Qed.

Lemma sides_of_deletes (a : text) :
  old_side (List.map (fun z => (DIFF_DELETE, [z])) a) = a
  /\ new_side (List.map (fun z => (DIFF_DELETE, [z])) a) = [].
Proof.
  induction a as [| x a [IHo IHn]]; [split; reflexivity |].
  split; cbn; [f_equal; exact IHo | exact IHn].
Qed.

Lemma sides_of_inserts (b : text) :
  old_side (List.map (fun y => (DIFF_INSERT, [y])) b) = []
  /\ new_side (List.map (fun y => (DIFF_INSERT, [y])) b) = b.
Proof.
  induction b as [| y b [IHo IHn]]; [split; reflexivity |].
  split; cbn; [exact IHo | f_equal; exact IHn].
Qed.

Lemma ses_sides (a b : text) :
  old_side (ses a b) = a /\ new_side (ses a b) = b.
Proof.
  revert b.
  induction a as [| x a IHa]; intros b.
  - apply sides_of_inserts.
  - induction b as [| y b IHb].
    + rewrite ses_nil_r. apply sides_of_deletes.
    + rewrite ses_cons.
      destruct (N.eqb_spec x y) as [-> | Hxy].
      * destruct (IHa b) as [Ho Hn]. split; cbn; f_equal; assumption.
      * cbv zeta.
        destruct (_ <? _).
        -- destruct IHb as [Ho Hn]. split; cbn; [| f_equal]; assumption.
        -- destruct (IHa (y :: b)) as [Ho Hn]. split; cbn; [f_equal |]; assumption.
Qed.

Lemma merge_cons_sides (d : diff) (ds : list diff) :
  old_side (merge_cons d ds) = old_part d ++ old_side ds
  /\ new_side (merge_cons d ds) = new_part d ++ new_side ds.
Proof.
  destruct d as [o [| c t]].
  - destruct o; split; reflexivity.
  - destruct o; destruct ds as [| [[] u] r]; try (split; reflexivity);
      try (split; cbn; rewrite ?app_assoc; reflexivity).
    destruct r as [| [[] v] r]; split; cbn; rewrite ?app_assoc; reflexivity.
Qed.

Lemma diff_cleanupMerge_sides (ds : list diff) :
  old_side (diff_cleanupMerge ds) = old_side ds
  /\ new_side (diff_cleanupMerge ds) = new_side ds.
Proof.
  induction ds as [| d ds [IHo IHn]]; [split; reflexivity |].
  cbn [diff_cleanupMerge fold_right].
  destruct (merge_cons_sides d (diff_cleanupMerge ds)) as [Ho Hn].
  fold (diff_cleanupMerge ds) in *.
  rewrite Ho, Hn, IHo, IHn. split; reflexivity.
Qed.

Lemma eliminate_sides (ds : list diff) (pd pi : nat) :
  old_side (eliminate pd pi ds) = old_side ds
  /\ new_side (eliminate pd pi ds) = new_side ds.
Proof.
  revert pd pi.
  induction ds as [| [o t] ds IH]; intros pd pi; [split; reflexivity |].
  destruct o; cbn [eliminate].
  - destruct (IH (pd + length t) pi) as [Ho Hn].
    split; cbn; [f_equal |]; assumption.
  - destruct (IH pd (pi + length t)) as [Ho Hn].
    split; cbn; [| f_equal]; assumption.
  - destruct (_ && _).
    + destruct (IH (pd + length t) (pi + length t)) as [Ho Hn].
      split; cbn; f_equal; assumption.
    + destruct (IH 0 0) as [Ho Hn].
      split; cbn; f_equal; assumption.
Qed.

Lemma shift_left_ok (re1 : text) :
  forall rx e2 : text,
    shift_ok (rev re1) (rev rx) e2 (shift_left re1 rx e2).
Proof.
  induction re1 as [| c re1 IH]; intros rx e2.
  - cbn. split; reflexivity.
  - destruct rx as [| d rx].
    + cbn [shift_left]. split; reflexivity.
    + cbn [shift_left].
      destruct (N.eqb_spec c d) as [-> | Hcd]; [| split; reflexivity].
      specialize (IH (rx ++ [d]) (d :: e2)).
      destruct (shift_left re1 (rx ++ [d]) (d :: e2)) as [[l1 lx] l2].
      unfold shift_ok in *. destruct IH as [H1 H2].
      rewrite H1, H2, rev_app_distr. cbn [rev app].
      rewrite <- !app_assoc. cbn [app]. split; reflexivity.
Qed.

Lemma shift_right_ok (o1 ox o2 : text) (e2 : text) :
  forall (e1 x : text) (best : nat * (text * text * text)),
    shift_ok o1 ox o2 (e1, x, e2) ->
    shift_ok o1 ox o2 (snd best) ->
    shift_ok o1 ox o2 (shift_right e1 x e2 best).
Proof.
  induction e2 as [| b e2 IH]; intros e1 x best Hcur Hbest.
  - destruct x; exact Hbest.
  - destruct x as [| a x]; [exact Hbest |].
    cbn [shift_right].
    destruct (N.eqb_spec a b) as [-> | Hab]; [| exact Hbest].
    assert (Hnext : shift_ok o1 ox o2 (e1 ++ [b], x ++ [b], e2)).
    { unfold shift_ok in *. destruct Hcur as [H1 H2].
      rewrite <- H1, <- H2, <- !app_assoc. cbn [app]. split; reflexivity. }
    apply IH; [exact Hnext |].
    destruct (_ <? _); [exact Hnext | exact Hbest].
Qed.

Lemma best_shift_ok (e1 x e2 : text) :
  shift_ok e1 x e2 (best_shift e1 x e2).
Proof.
  unfold best_shift.
  pose proof (shift_left_ok (rev e1) (rev x) e2) as Hl.
  rewrite !rev_involutive in Hl.
  destruct (shift_left (rev e1) (rev x) e2) as [[l1 lx] l2].
  apply shift_right_ok; exact Hl.
Qed.

Lemma old_side_cons (d : diff) (ds : list diff) :
  old_side (d :: ds) = old_part d ++ old_side ds.
Proof. reflexivity. Qed.

Lemma new_side_cons (d : diff) (ds : list diff) :
  new_side (d :: ds) = new_part d ++ new_side ds.
Proof. reflexivity. Qed.

Lemma old_side_app (ds ds' : list diff) :
  old_side (ds ++ ds') = old_side ds ++ old_side ds'.
Proof. apply flat_map_app. Qed.

Lemma new_side_app (ds ds' : list diff) :
  new_side (ds ++ ds') = new_side ds ++ new_side ds'.
Proof. apply flat_map_app. Qed.

Lemma app3_cancel (a b c a' b' c' r : text) :
  a ++ b ++ c = a' ++ b' ++ c' -> a ++ b ++ c ++ r = a' ++ b' ++ c' ++ r.
Proof.
  intros H.
  rewrite (app_assoc b c r), (app_assoc a (b ++ c) r), H, <- !app_assoc.
  reflexivity.
Qed.

Lemma app2_cancel (a c a' c' r : text) :
  a ++ c = a' ++ c' -> a ++ c ++ r = a' ++ c' ++ r.
Proof.
  intros H. rewrite (app_assoc a c r), H, <- app_assoc. reflexivity.
Qed.

Lemma lossless_sides_bounded (n : nat) :
  forall (ds : list diff) (pending : option text),
    length ds <= n ->
    old_side (lossless pending ds) = or_empty pending ++ old_side ds
    /\ new_side (lossless pending ds) = or_empty pending ++ new_side ds.
Proof.
  induction n as [| n IH]; intros ds pending Hlen.
  - destruct ds; [| cbn in Hlen; lia].
    destruct pending; split; reflexivity.
  - destruct ds as [| [o x] r]; [destruct pending; split; reflexivity |].
    cbn [length] in Hlen.
    assert (Hplain :
      forall q : option text,
        old_side ((match pending with Some e => [(DIFF_EQUAL, e)] | None => [] end)
                  ++ (o, x) :: lossless q r)
        = or_empty pending ++ old_part (o, x) ++ or_empty q ++ old_side r
        /\ new_side ((match pending with Some e => [(DIFF_EQUAL, e)] | None => [] end)
                     ++ (o, x) :: lossless q r)
        = or_empty pending ++ new_part (o, x) ++ or_empty q ++ new_side r).
    { intros q. destruct (IH r q ltac:(lia)) as [Ho Hn].
      rewrite old_side_app, new_side_app, old_side_cons, new_side_cons, Ho, Hn.
      destruct pending; split; cbn; rewrite ?app_nil_r; reflexivity. }
    destruct o.
    + destruct pending as [e1 |]; [| exact (Hplain None)].
      destruct r as [| [[] e2] r']; try exact (Hplain None).
      cbn [lossless].
      pose proof (best_shift_ok e1 x e2) as Hs.
      destruct (best_shift e1 x e2) as [[e1' x'] e2'].
      destruct Hs as [H1 H2].
      destruct (IH r' (Some e2') ltac:(cbn [length] in Hlen; lia)) as [Ho Hn].
      rewrite !old_side_cons, !new_side_cons, Ho, Hn.
      unfold old_part, new_part. cbn [fst snd or_empty app].
      split; [apply app3_cancel; exact H1 | apply app2_cancel; exact H2].
    + destruct pending as [e1 |]; [| exact (Hplain None)].
      destruct r as [| [[] e2] r']; try exact (Hplain None).
      cbn [lossless].
      pose proof (best_shift_ok e1 x e2) as Hs.
      destruct (best_shift e1 x e2) as [[e1' x'] e2'].
      destruct Hs as [H1 H2].
      destruct (IH r' (Some e2') ltac:(cbn [length] in Hlen; lia)) as [Ho Hn].
      rewrite !old_side_cons, !new_side_cons, Ho, Hn.
      unfold old_part, new_part. cbn [fst snd or_empty app].
      split; [apply app2_cancel; exact H2 | apply app3_cancel; exact H1].
    + cbn [lossless].
      destruct (IH r (Some x) ltac:(lia)) as [Ho Hn].
      rewrite old_side_app, new_side_app, Ho, Hn.
      destruct pending; split; cbn; rewrite ?app_nil_r; reflexivity.
Qed.

Lemma lossless_sides (ds : list diff) :
  old_side (lossless None ds) = old_side ds
  /\ new_side (lossless None ds) = new_side ds.
Proof. exact (@lossless_sides_bounded (length ds) ds None (le_n _)). Qed.

Lemma diff_cleanupSemantic_sides (ds : list diff) :
  old_side (diff_cleanupSemantic ds) = old_side ds
  /\ new_side (diff_cleanupSemantic ds) = new_side ds.
Proof.
  unfold diff_cleanupSemantic.
  destruct (diff_cleanupMerge_sides
              (lossless None (diff_cleanupMerge (eliminate 0 0 (diff_cleanupMerge ds)))))
    as [-> ->].
  destruct (lossless_sides (diff_cleanupMerge (eliminate 0 0 (diff_cleanupMerge ds))))
    as [-> ->].
  destruct (diff_cleanupMerge_sides (eliminate 0 0 (diff_cleanupMerge ds))) as [-> ->].
  destruct (eliminate_sides (diff_cleanupMerge ds) 0 0) as [-> ->].
  apply diff_cleanupMerge_sides.
Qed.

Lemma compute_sides (old_text new_text : text) :
  old_side (compute old_text new_text) = old_text
  /\ new_side (compute old_text new_text) = new_text.
Proof.
  unfold compute.
  destruct (diff_cleanupSemantic_sides (diff_main old_text new_text)) as [-> ->].
  apply ses_sides.
Qed.

(** C1: the script that [generate_synopsis_html] renders spells both texts:
    its Equal and Delete spans, in order, give the old text, and its Equal
    and Insert spans, in order, give the new text. *)
Theorem compute_reconstructs (old_text new_text : text) :
  old_side (diff_cleanupSemantic (diff_main old_text new_text)) = old_text
  /\ new_side (diff_cleanupSemantic (diff_main old_text new_text)) = new_text.
Proof. exact (compute_sides old_text new_text). Qed.


(** ** The merged script *)




(** ** Identical and empty inputs *)

Lemma ses_same (s : text) :
  ses s s = List.map (fun c => (DIFF_EQUAL, [c])) s.
Proof.
  induction s as [| c s IH]; [reflexivity |].
  rewrite ses_cons, N.eqb_refl, IH. reflexivity.
Qed.

Lemma merge_equal_chars (c : char) (s : text) :
  diff_cleanupMerge (List.map (fun c => (DIFF_EQUAL, [c])) (c :: s))
  = [(DIFF_EQUAL, c :: s)].
Proof.
  revert c.
  induction s as [| c' s IH]; intros c; [reflexivity |].
  change (diff_cleanupMerge (List.map (fun c => (DIFF_EQUAL, [c])) (c :: c' :: s)))
    with (merge_cons (DIFF_EQUAL, [c])
            (diff_cleanupMerge (List.map (fun c => (DIFF_EQUAL, [c])) (c' :: s)))).
  rewrite IH. reflexivity.
Qed.

Lemma compute_same (c : char) (s : text) :
  compute (c :: s) (c :: s) = [(DIFF_EQUAL, c :: s)].
Proof.
  unfold compute, diff_main, diff_cleanupSemantic.
  rewrite ses_same, merge_equal_chars. reflexivity.
Qed.

Lemma compute_empty_inv (old_text new_text : text) :
  compute old_text new_text = [] -> old_text = [] /\ new_text = [].
Proof.
  intros H.
  destruct (compute_sides old_text new_text) as [Ho Hn].
  rewrite H in Ho, Hn. split; symmetry; assumption.
Qed.

(** C6: for a text [s] that is not empty, the script of the pair [(s, s)]
    is the one operation Equal [s]; a script is empty only when both texts
    are empty; and an unchanged pair is rendered as the escaped text on both
    sides, with no annotation. *)
Theorem identical_inputs :
  (forall s : text, s <> [] -> compute s s = [(DIFF_EQUAL, s)])
  /\ (forall old_text new_text : text,
        compute old_text new_text = [] -> old_text = [] /\ new_text = [])
  /\ (forall s : text,
        generate_synopsis_html s s
        = {| old_version_html := safe_data s; new_version_html := safe_data s |}).
Proof.
  split; [| split].
  - intros [| c s] Hs; [contradiction | apply compute_same].
  - exact compute_empty_inv.
  - intros [| c s]; [reflexivity |].
    unfold generate_synopsis_html.
    change (diff_cleanupSemantic (diff_main (c :: s) (c :: s)))
      with (compute (c :: s) (c :: s)).
    rewrite compute_same, render_pieces. cbn [flat_map old_piece new_piece fst snd].
    rewrite app_nil_r. reflexivity.
Qed.

Lemma identical_inputs_witness :
  (str "A B" <> [] /\ compute (str "A B") (str "A B") = [(DIFF_EQUAL, str "A B")])
  /\ (compute [] [] = [] /\ ([] : text) = [] /\ ([] : text) = [])
  /\ generate_synopsis_html (str "A B") (str "A B")
     = {| old_version_html := str "A B"; new_version_html := str "A B" |}.
Proof.
  split; [| split].
  - split; [discriminate |].
    apply (proj1 identical_inputs (str "A B")). discriminate.
  - split; [reflexivity |].
    apply (proj1 (proj2 identical_inputs) [] []). reflexivity.
  - exact (proj2 (proj2 identical_inputs) (str "A B")).
Defined.

(** C7: two empty texts give the empty script, and the empty script is
    rendered as two empty strings. *)
Theorem empty_inputs :
  compute [] [] = []
  /\ render [] = ([], [])
  /\ generate_synopsis_html [] []
     = {| old_version_html := []; new_version_html := [] |}.
Proof. repeat split. Qed.

(** ** The edit cost *)

















(** C8, as amended: for "the cat sat" and "the cat ran" the cleaned script
    is Equal "the cat ", Delete "sat", Insert "ran"; the old output is
    "the cat " followed by "sat" inside a span of class diff-deleted, the new
    output "the cat " followed by "ran" inside a span of class
    diff-inserted. *)
Theorem cat_example :
  compute (str "the cat sat") (str "the cat ran")
  = [(DIFF_EQUAL, str "the cat "); (DIFF_DELETE, str "sat"); (DIFF_INSERT, str "ran")]
  /\ generate_synopsis_html (str "the cat sat") (str "the cat ran")
     = {| old_version_html := str "the cat " ++ span_deleted ++ str "sat" ++ span_close;
          new_version_html := str "the cat " ++ span_inserted ++ str "ran" ++ span_close |}.
Proof. split; vm_compute; reflexivity. Qed.

(** C8, as stated, fails: the rendered script does not carry "del" and
    "ins" tags. *)
Lemma cat_example_not_del_ins :
  render [(DIFF_EQUAL, str "the cat "); (DIFF_DELETE, str "sat"); (DIFF_INSERT, str "ran")]
  <> (str "the cat <del>sat</del>", str "the cat <ins>ran</ins>")
  /\ old_version_html (generate_synopsis_html (str "the cat sat") (str "the cat ran"))
     <> str "the cat <del>sat</del>"
  /\ new_version_html (generate_synopsis_html (str "the cat sat") (str "the cat ran"))
     <> str "the cat <ins>ran</ins>".
Proof. repeat split; vm_compute; discriminate. Qed.

(** C3: for every pair of texts, whatever characters they hold, stripping
    the annotation wrappers from the two rendered strings and undoing the
    escaping, line breaks included, gives back the old and the new text. *)
Theorem synopsis_read_back (old_text new_text : text) :
  unescape (strip_annotations
              (old_version_html (generate_synopsis_html old_text new_text)))
  = old_text
  /\ unescape (strip_annotations
                 (new_version_html (generate_synopsis_html old_text new_text)))
     = new_text.
Proof.
  unfold generate_synopsis_html.
  destruct (render_read_back (diff_cleanupSemantic (diff_main old_text new_text)))
    as [Ho Hn].
  destruct (render (diff_cleanupSemantic (diff_main old_text new_text)))
    as [old_html new_html].
  cbn [old_version_html new_version_html fst snd] in *.
  destruct (compute_sides old_text new_text) as [Ro Rn].
  rewrite Ho, Hn. split; assumption.
Qed.

(** ** The request layer *)

Section RequestProperties.

Variable fromisoformat : text -> option date.
Variable isoformat : date -> text.
Variable db : database.

Lemma api_invalid_date (law v1 v2 num : text) :
  fromisoformat v1 = None \/ fromisoformat v2 = None ->
  get_synopsis_api fromisoformat isoformat db law v1 v2 num
  = (json_error msg_invalid_date, 400%Z).
Proof.
  unfold get_synopsis_api. intros [H | H].
  - rewrite H. reflexivity.
  - rewrite H. destruct (fromisoformat v1); reflexivity.
Qed.

Lemma api_not_found (law v1 v2 num : text) (d1 d2 : date) :
  fromisoformat v1 = Some d1 ->
  fromisoformat v2 = Some d2 ->
  query_first db law d1 (replace (str "%20") (str " ") num) = None
  \/ query_first db law d2 (replace (str "%20") (str " ") num) = None ->
  get_synopsis_api fromisoformat isoformat db law v1 v2 num
  = (json_error msg_not_found, 404%Z).
Proof.
  unfold get_synopsis_api. intros -> -> [H | H]; rewrite H.
  - reflexivity.
  - destruct (query_first db law d1 _); reflexivity.
Qed.

Lemma api_found (law v1 v2 num : text) (d1 d2 : date) (r1 r2 : Paragraph) :
  fromisoformat v1 = Some d1 ->
  fromisoformat v2 = Some d2 ->
  query_first db law d1 (replace (str "%20") (str " ") num) = Some r1 ->
  query_first db law d2 (replace (str "%20") (str " ") num) = Some r2 ->
  snd (get_synopsis_api fromisoformat isoformat db law v1 v2 num) = 200%Z.
Proof.
  unfold get_synopsis_api. intros -> -> -> ->. reflexivity.
Qed.

End RequestProperties.

(** C9: a request with a date string that [date.fromisoformat] rejects is
    answered with the bad-input error and status 400; a request whose dates
    are read and for which one of the two lookups finds no row is answered
    with the not-found error and status 404, a different answer, and never
    with a synopsis. *)
Theorem request_errors
    (fromisoformat : text -> option date) (isoformat : date -> text)
    (db : database) (law v1 v2 num : text) :
  (fromisoformat v1 = None \/ fromisoformat v2 = None ->
   get_synopsis_api fromisoformat isoformat db law v1 v2 num
   = (json_error msg_invalid_date, 400%Z))
  /\ (forall d1 d2 : date,
        fromisoformat v1 = Some d1 ->
        fromisoformat v2 = Some d2 ->
        query_first db law d1 (replace (str "%20") (str " ") num) = None
        \/ query_first db law d2 (replace (str "%20") (str " ") num) = None ->
        get_synopsis_api fromisoformat isoformat db law v1 v2 num
        = (json_error msg_not_found, 404%Z)
        /\ (forall (l p : text) (j1 j2 : version_json) (status : Z),
              get_synopsis_api fromisoformat isoformat db law v1 v2 num
              <> (json_synopsis l p j1 j2, status)))
  /\ (json_error msg_invalid_date, 400%Z) <> (json_error msg_not_found, 404%Z).
Proof.
  split; [apply api_invalid_date | split; [| discriminate]].
  intros d1 d2 H1 H2 Hq.
  rewrite (@api_not_found fromisoformat isoformat db law v1 v2 num d1 d2 H1 H2 Hq).
  split; [reflexivity | discriminate].
Qed.

Lemma request_errors_witness :
  get_synopsis_api sample_fromisoformat sample_isoformat sample_db
    (str "EStG") (str "2019-01-01") (str "01.01.2020") ([167%N] ++ str "%201")
  = (json_error msg_invalid_date, 400%Z)
  /\ get_synopsis_api sample_fromisoformat sample_isoformat sample_db
       (str "EStG") (str "2019-01-01") (str "2021-01-01") ([167%N] ++ str "%201")
     = (json_error msg_not_found, 404%Z).
Proof.
  split.
  - apply (proj1 (request_errors sample_fromisoformat sample_isoformat sample_db
                    (str "EStG") (str "2019-01-01") (str "01.01.2020")
                    ([167%N] ++ str "%201"))).
    right. reflexivity.
  - apply (proj1 (proj2 (request_errors sample_fromisoformat sample_isoformat sample_db
                           (str "EStG") (str "2019-01-01") (str "2021-01-01")
                           ([167%N] ++ str "%201")))
             (mk_date 2019 1 1) (mk_date 2021 1 1)).
    + reflexivity.
    + reflexivity.
    + right. reflexivity.
Defined.

(** * Further properties of the code *)

(** ** Escaping *)

Lemma escape_char_plain (c : char) : plain_char c -> escape_char c = [c].
Proof.
  intros (Ha & Hl & Hg & Hn). unfold escape_char.
  rewrite (proj2 (N.eqb_neq c c_amp) Ha), (proj2 (N.eqb_neq c c_lt) Hl),
    (proj2 (N.eqb_neq c c_gt) Hg), (proj2 (N.eqb_neq c c_nl) Hn).
  reflexivity.
Qed.

Lemma escape_char_length (c : char) :
  1 <= length (escape_char c) <= 5
  /\ (length (escape_char c) = 1 -> plain_char c).
Proof.
  unfold escape_char, plain_char.
  char_cases c; cbn; repeat split; try lia; try discriminate; assumption.
Qed.

Lemma safe_data_length (s : text) :
  length s <= length (safe_data s) <= 5 * length s.
Proof.
  rewrite safe_data_escape_char.
  induction s as [| c s IH]; [cbn; lia |].
  cbn [flat_map]. rewrite length_app. cbn [length].
  pose proof (escape_char_length c). lia.
Qed.

(** X1: the escaping leaves a text as it is exactly when the text holds none
    of the characters ampersand, less-than, greater-than and newline; it
    never shortens a text and makes it at most five times as long. *)
Theorem safe_data_unchanged_iff_plain (s : text) :
  (safe_data s = s <-> Forall plain_char s)
  /\ length s <= length (safe_data s) <= 5 * length s.
Proof.
  split; [| apply safe_data_length].
  split.
  - intros H.
    assert (Hlen : length (safe_data s) = length s) by (rewrite H; reflexivity).
    clear H. rewrite safe_data_escape_char in Hlen.
    induction s as [| c s IH]; [constructor |].
    cbn [flat_map] in Hlen. rewrite length_app in Hlen. cbn [length] in Hlen.
    pose proof (escape_char_length c) as [Hc Hp].
    pose proof (safe_data_length s) as Hs. rewrite safe_data_escape_char in Hs.
    constructor; [apply Hp; lia | apply IH; lia].
  - intros H. rewrite safe_data_escape_char.
    induction H as [| c s Hc _ IH]; [reflexivity |].
    cbn [flat_map]. rewrite (escape_char_plain Hc), IH. reflexivity.
Qed.

Lemma strip_scan_length (s : text) :
  forall skip : nat, length (strip_scan skip s) <= length s.
Proof.
  induction s as [| c s IH]; intros skip; [cbn; lia |].
  cbn [strip_scan].
  destruct skip as [| k]; [| specialize (IH k); cbn [length]; lia].
  repeat match goal with
         | |- context [if ?b then _ else _] => destruct b
         end;
    cbn [length];
    match goal with
    | |- context [strip_scan ?k s] => specialize (IH k); lia
    end.
Qed.

(** A text in which one of the three tags occurs gets shorter when the tags
    are stripped. *)
Lemma strip_scan_shortens (w : text) :
  w = span_deleted \/ w = span_inserted \/ w = span_close ->
  forall pre post : text,
    length (strip_scan 0 (pre ++ w ++ post)) < length (pre ++ w ++ post).
Proof.
  intros Hw pre post.
  induction pre as [| c pre IH].
  - cbn [app].
    assert (Hs : strip_scan 0 (w ++ post) = strip_scan 0 post).
    { destruct Hw as [-> | [-> | ->]]; reflexivity. }
    rewrite Hs, length_app.
    pose proof (strip_scan_length post 0).
    assert (0 < length w) by (destruct Hw as [-> | [-> | ->]]; cbn; lia).
    lia.
  - cbn [app strip_scan].
    repeat match goal with
           | |- context [if ?b then _ else _] => destruct b
           end;
      cbn [length];
      try match goal with
          | |- context [strip_scan (?k - 1) ?t] =>
              pose proof (strip_scan_length t (k - 1)); lia
          end.
    lia.
Qed.

(** X2: whatever the text, its escaped form contains none of the three
    tags that the renderer writes around it, and no newline: a text cannot
    forge an annotation. *)
Theorem safe_data_never_holds_a_tag (s pre post : text) :
  safe_data s <> pre ++ span_deleted ++ post
  /\ safe_data s <> pre ++ span_inserted ++ post
  /\ safe_data s <> pre ++ span_close ++ post
  /\ ~ In c_nl (safe_data s).
Proof.
  assert (Hfix : strip_scan 0 (safe_data s) = safe_data s).
  { pose proof (strip_scan_safe_data s []) as H.
    cbn [strip_scan] in H. rewrite !app_nil_r in H. exact H. }
  assert (Htag : forall w, w = span_deleted \/ w = span_inserted \/ w = span_close ->
                           safe_data s <> pre ++ w ++ post).
  { intros w Hw Heq.
    pose proof (strip_scan_shortens Hw pre post) as Hlt.
    rewrite <- Heq, Hfix in Hlt. lia. }
  repeat split; try (apply Htag; tauto).
  rewrite safe_data_escape_char. intros Hin.
  apply in_flat_map in Hin. destruct Hin as (c & _ & Hc).
  unfold escape_char in Hc.
  destruct (N.eqb c c_amp); [cbn in Hc; intuition discriminate |].
  destruct (N.eqb c c_lt); [cbn in Hc; intuition discriminate |].
  destruct (N.eqb c c_gt); [cbn in Hc; intuition discriminate |].
  destruct (N.eqb_spec c c_nl) as [E | E]; [cbn in Hc; intuition discriminate |].
  destruct Hc as [Hc | []]. congruence.
Qed.

Lemma safe_data_unchanged_iff_plain_witness :
  Forall plain_char (str "A B") /\ safe_data (str "A B") = str "A B".
Proof.
  assert (H : Forall plain_char (str "A B")).
  { repeat constructor; discriminate. }
  split; [exact H |].
  apply (proj2 (proj1 (safe_data_unchanged_iff_plain (str "A B")))). exact H.
Defined.

(** ** The renderer on composed scripts *)

(** X3: rendering the concatenation of two scripts gives, on each side, the
    rendering of the first followed by the rendering of the second. *)
Theorem render_concatenation (ds1 ds2 : list diff) :
  render (ds1 ++ ds2)
  = (fst (render ds1) ++ fst (render ds2), snd (render ds1) ++ snd (render ds2)).
Proof. rewrite !render_pieces, !flat_map_app. reflexivity. Qed.

Lemma flat_map_filter_nil (A B : Type) (f : A -> list B) (keep : A -> bool) (l : list A) :
  (forall a, keep a = false -> f a = []) ->
  flat_map f (filter keep l) = flat_map f l.
Proof.
  intros H. induction l as [| a l IH]; [reflexivity |].
  cbn [filter flat_map]. destruct (keep a) eqn:E.
  - cbn [flat_map]. rewrite IH. reflexivity.
  - rewrite (H a E), IH. reflexivity.
Qed.

(** X4: the old output does not depend on the Insert operations of the
    script and the new output does not depend on its Delete operations:
    removing them from the script leaves that output as it is. *)
Theorem render_side_independence (ds : list diff) :
  fst (render (filter (fun d => match fst d with DIFF_INSERT => false | _ => true end) ds))
  = fst (render ds)
  /\ snd (render (filter (fun d => match fst d with DIFF_DELETE => false | _ => true end) ds))
     = snd (render ds).
Proof.
  rewrite !render_pieces. cbn [fst snd].
  split; apply flat_map_filter_nil; intros [[] data] H;
    try discriminate H; reflexivity.
Qed.

(** ** Decoding the paragraph number *)

Lemma replace_scan_absent (k : char) (p new s : text) :
  ~ In k s -> replace_scan (k :: p) new 0 s = s.
Proof.
  induction s as [| c s IH]; intros H; [reflexivity |].
  cbn [replace_scan].
  rewrite starts_with_head_neq by (intros ->; apply H; left; reflexivity).
  rewrite IH by (intros Hin; apply H; right; exact Hin).
  reflexivity.
Qed.

(** X5: [get_synopsis_api] decodes the paragraph number from the left: a
    number without a percent sign is used as it is, and up to the first
    percent sign, when that starts "%20", the text is kept, the "%20" becomes
    one space and the decoding goes on behind it. *)
Theorem paragraph_number_decoding :
  (forall num : text,
      ~ In 37%N num -> replace (str "%20") (str " ") num = num)
  /\ (forall a b : text,
        ~ In 37%N a ->
        replace (str "%20") (str " ") (a ++ str "%20" ++ b)
        = a ++ str " " ++ replace (str "%20") (str " ") b).
Proof.
  split.
  - intros num H. apply replace_scan_absent. exact H.
  - intros a b H. unfold replace. cbn [str List.map list_ascii_of_string].
    induction a as [| c a IH]; [reflexivity |].
    cbn [app replace_scan].
    change (N_of_ascii "%") with 37%N.
    rewrite starts_with_head_neq by (intros Heq; apply H; left; symmetry; exact Heq).
    f_equal. apply IH. intros Hin. apply H. right. exact Hin.
Qed.

Lemma paragraph_number_decoding_witness :
  replace (str "%20") (str " ") par_1 = par_1
  /\ replace (str "%20") (str " ") ([167%N] ++ str "%20" ++ str "1")
     = [167%N] ++ str " " ++ replace (str "%20") (str " ") (str "1").
Proof.
  split.
  - apply (proj1 paragraph_number_decoding).
    cbn. intros [H | [H | [H | []]]]; discriminate H.
  - apply (proj2 paragraph_number_decoding).
    cbn. intros [H | []]; discriminate H.
Defined.

(** ** The request layer: which answer is given when *)

(** X6: [get_synopsis_api] answers with status 200, 400 or 404 and nothing
    else; the status is 200 exactly when both dates are read and both
    lookups find a row, and then the body is a synopsis that repeats the law
    name and the decoded paragraph number; with any other status the body is
    an error message. *)
Theorem request_status_cases
    (fromisoformat : text -> option date) (isoformat : date -> text)
    (db : database) (law v1 v2 num : text) :
  let answer := get_synopsis_api fromisoformat isoformat db law v1 v2 num in
  let decoded := replace (str "%20") (str " ") num in
  (snd answer = 200%Z \/ snd answer = 400%Z \/ snd answer = 404%Z)
  /\ (snd answer = 200%Z <->
      exists d1 d2 r1 r2,
        fromisoformat v1 = Some d1 /\ fromisoformat v2 = Some d2
        /\ query_first db law d1 decoded = Some r1
        /\ query_first db law d2 decoded = Some r2)
  /\ (snd answer = 200%Z ->
      exists j1 j2, fst answer = json_synopsis law decoded j1 j2)
  /\ (snd answer <> 200%Z -> exists message, fst answer = json_error message).
Proof.
  cbv zeta. unfold get_synopsis_api.
  destruct (fromisoformat v1) as [d1 |] eqn:F1;
    [destruct (fromisoformat v2) as [d2 |] eqn:F2 |];
    [destruct (query_first db law d1 _) as [r1 |] eqn:E1;
       [destruct (query_first db law d2 _) as [r2 |] eqn:E2 |] | |];
    cbn [fst snd]; repeat split; intros;
    try tauto; try discriminate;
    try (eexists; eexists; reflexivity);
    try (eexists; reflexivity);
    try (exists d1, d2, r1, r2; tauto);
    try match goal with
        | H : exists _, _ |- _ =>
            destruct H as (e1 & e2 & s1 & s2 & H1 & H2 & H3 & H4); congruence
        end;
    try congruence.
Qed.

Lemma request_status_cases_witness :
  snd (get_synopsis_api sample_fromisoformat sample_isoformat sample_db
         (str "EStG") (str "2019-01-01") (str "2020-01-01") ([167%N] ++ str "%201"))
  = 200%Z.
Proof.
  apply (proj2 (proj1 (proj2
           (request_status_cases sample_fromisoformat sample_isoformat sample_db
              (str "EStG") (str "2019-01-01") (str "2020-01-01")
              ([167%N] ++ str "%201"))))).
  exists (mk_date 2019 1 1), (mk_date 2020 1 1).
  eexists. eexists.
  repeat split; reflexivity.
Defined.

(** ** The lookup *)

Lemma existsb_true_iff (A : Type) (f : A -> bool) (l : list A) :
  existsb f l = true <-> exists x, In x l /\ f x = true.
Proof. apply existsb_exists. Qed.

Lemma text_eqb_eq (a b : text) : text_eqb a b = true <-> a = b.
Proof.
  unfold text_eqb. destruct (text_eq_dec a b); split; congruence.
Qed.

Lemma date_eqb_eq (a b : date) : date_eqb a b = true <-> a = b.
Proof.
  unfold date_eqb. destruct a as [y m d], b as [y' m' d']. cbn [year month day].
  rewrite !andb_true_iff, !Z.eqb_eq.
  split; [intros [[-> ->] ->]; reflexivity | intros H; injection H; auto].
Qed.

Lemma paragraph_matches_iff (db : database) (name : text) (d : date)
    (num : text) (p : Paragraph) :
  paragraph_matches db name d num p = true
  <-> paragraph_number p = num
      /\ exists v l,
           In v (law_versions db) /\ In l (laws db)
           /\ version_id v = paragraph_version_id p
           /\ version_date v = d
           /\ law_id l = version_law_id v
           /\ short_name l = name.
Proof.
  unfold paragraph_matches.
  rewrite andb_true_iff, text_eqb_eq, existsb_true_iff.
  split.
  - intros [Hn (v & Hv & H)].
    rewrite !andb_true_iff, Z.eqb_eq, date_eqb_eq, existsb_true_iff in H.
    destruct H as [[Hid Hd] (l & Hl & H)].
    rewrite andb_true_iff, Z.eqb_eq, text_eqb_eq in H. destruct H as [Hlid Hname].
    split; [exact Hn |]. exists v, l. tauto.
  - intros [Hn (v & l & Hv & Hl & Hid & Hd & Hlid & Hname)].
    split; [exact Hn |]. exists v. split; [exact Hv |].
    rewrite !andb_true_iff, Z.eqb_eq, date_eqb_eq, existsb_true_iff.
    repeat split; try assumption.
    exists l. rewrite andb_true_iff, Z.eqb_eq, text_eqb_eq. tauto.
Qed.

(** X7: the lookup of [get_synopsis_api] is sound and complete: a row that
    it returns is a paragraph with the number asked for whose version has
    the date asked for and belongs to the law asked for; and it returns no
    row only when the tables hold no such paragraph. *)
Theorem query_first_sound_complete (db : database) (name : text) (d : date)
    (num : text) :
  (forall p, query_first db name d num = Some p -> row_of db name d num p)
  /\ (query_first db name d num = None <->
      forall p, ~ row_of db name d num p).
Proof.
  unfold query_first, row_of. split; [| split].
  - intros p H. apply find_some in H. destruct H as [Hin Hm].
    apply paragraph_matches_iff in Hm. tauto.
  - intros H p [Hin Hrow].
    pose proof (find_none _ _ H p Hin) as Hm.
    apply paragraph_matches_iff in Hrow. congruence.
  - intros H.
    destruct (find (paragraph_matches db name d num) (paragraphs db)) as [p |] eqn:E;
      [| reflexivity].
    apply find_some in E. destruct E as [Hin Hm].
    apply paragraph_matches_iff in Hm. exfalso. apply (H p). tauto.
Qed.

Lemma query_first_sound_complete_witness :
  row_of sample_db (str "EStG") (mk_date 2020 1 1) par_2
    (mk_Paragraph 4 2 par_2 (str "im Ausland wohnen und stehen.") None).
Proof.
  apply (proj1 (query_first_sound_complete sample_db (str "EStG")
                  (mk_date 2020 1 1) par_2)).
  reflexivity.
Defined.

Lemma find_map_option (A B : Type) (f : B -> bool) (g : A -> B) (l : list A) :
  find f (List.map g l) = option_map g (find (fun a => f (g a)) l).
Proof.
  induction l as [| a l IH]; [reflexivity |].
  cbn [List.map find]. destruct (f (g a)); [reflexivity | exact IH].
Qed.

Lemma query_first_without_null_zh (db : database) (name : text) (d : date)
    (num : text) :
  query_first (without_null_zh db) name d num
  = option_map null_zh_as_empty (query_first db name d num).
Proof.
  unfold query_first, without_null_zh. cbn [paragraphs].
  rewrite find_map_option. reflexivity.
Qed.

(** X8: [get_synopsis_api] treats a NULL Chinese text like the empty text:
    replacing every NULL [content_zh] of the table by the empty text changes
    no answer. *)
Theorem request_null_zh_is_empty
    (fromisoformat : text -> option date) (isoformat : date -> text)
    (db : database) (law v1 v2 num : text) :
  get_synopsis_api fromisoformat isoformat (without_null_zh db) law v1 v2 num
  = get_synopsis_api fromisoformat isoformat db law v1 v2 num.
Proof.
  unfold get_synopsis_api.
  destruct (fromisoformat v1) as [d1 |]; [| reflexivity].
  destruct (fromisoformat v2) as [d2 |]; [| reflexivity].
  rewrite !query_first_without_null_zh.
  destruct (query_first db law d1 _) as [r1 |]; [| reflexivity].
  destruct (query_first db law d2 _) as [r2 |]; [| reflexivity].
  cbn [option_map null_zh_as_empty content_de content_zh or_empty].
  reflexivity.
Qed.

(** ** The orders behind [ORDER BY] *)

Lemma text_compare_eq (a b : text) : text_compare a b = Eq <-> a = b.
Proof.
  revert b. induction a as [| x a IH]; intros [| y b]; cbn [text_compare];
    try (split; [discriminate | discriminate]); [tauto |].
  destruct (N.compare_spec x y) as [-> | H | H].
  - rewrite IH. split; [intros -> | intros E; injection E]; auto.
  - split; [discriminate | intros E; injection E; lia].
  - split; [discriminate | intros E; injection E; lia].
Qed.

Lemma text_compare_antisym (a b : text) :
  text_compare b a = CompOpp (text_compare a b).
Proof.
  revert b. induction a as [| x a IH]; intros [| y b]; cbn [text_compare];
    try reflexivity.
  rewrite (N.compare_antisym x y).
  destruct (N.compare x y); cbn [CompOpp]; [apply IH | reflexivity | reflexivity].
Qed.

Lemma text_lt_trans (a b c : text) : text_lt a b -> text_lt b c -> text_lt a c.
Proof.
  unfold text_lt. revert b c.
  induction a as [| x a IH]; intros [| y b] [| z c]; cbn [text_compare];
    try discriminate; try reflexivity.
  destruct (N.compare_spec x y) as [-> | Hxy | Hxy]; try discriminate.
  - destruct (N.compare_spec y z) as [-> | Hyz | Hyz]; try discriminate.
    + apply IH.
    + reflexivity.
  - destruct (N.compare_spec y z) as [-> | Hyz | Hyz]; try discriminate.
    + intros _ _. destruct (N.compare_spec x z); [lia | reflexivity | lia].
    + intros _ _. destruct (N.compare_spec x z); [lia | reflexivity | lia].
Qed.

Lemma text_lt_irrefl (a : text) : ~ text_lt a a.
Proof.
  unfold text_lt. rewrite (proj2 (text_compare_eq a a) eq_refl). discriminate.
Qed.

Lemma insert_distinct_spec (t : text) (l : list text) :
  StronglySorted text_lt l ->
  StronglySorted text_lt (insert_distinct t l)
  /\ (forall x, In x (insert_distinct t l) <-> x = t \/ In x l).
Proof.
  induction l as [| u r IH]; intros Hs.
  - cbn. split; [repeat constructor | intros x; intuition].
  - apply StronglySorted_inv in Hs. destruct Hs as [Hr Hu].
    destruct (IH Hr) as [IHs IHin].
    cbn [insert_distinct].
    destruct (text_compare t u) eqn:E.
    + apply text_compare_eq in E. subst u.
      split; [constructor; assumption |].
      intros x. cbn [In]. intuition.
    + split.
      * constructor; [constructor; assumption |].
        constructor; [exact E |].
        eapply Forall_impl; [| exact Hu].
        intros x Hx. eapply text_lt_trans; [exact E | exact Hx].
      * intros x. cbn [In]. intuition.
    + assert (Hut : text_lt u t).
      { unfold text_lt. rewrite text_compare_antisym, E. reflexivity. }
      split.
      * constructor; [exact IHs |].
        apply Forall_forall. intros x Hx. apply IHin in Hx.
        destruct Hx as [-> | Hx]; [exact Hut |].
        rewrite Forall_forall in Hu. apply Hu. exact Hx.
      * intros x. cbn [In]. rewrite IHin. intuition.
Qed.

Lemma distinct_ascending_spec (l : list text) :
  StronglySorted text_lt (distinct_ascending l)
  /\ (forall x, In x (distinct_ascending l) <-> In x l).
Proof.
  induction l as [| t l [IHs IHin]]; [split; [constructor | tauto] |].
  cbn [distinct_ascending fold_right]. fold (distinct_ascending l).
  destruct (insert_distinct_spec t IHs) as [Hs Hin].
  split; [exact Hs |].
  intros x. rewrite Hin, IHin. cbn [In]. intuition.
Qed.

Lemma strictly_sorted_NoDup (l : list text) :
  StronglySorted text_lt l -> NoDup l.
Proof.
  induction 1 as [| a l Hs IH Ha]; constructor; [| exact IH].
  intros Hin. rewrite Forall_forall in Ha.
  exact (text_lt_irrefl (Ha a Hin)).
Qed.

Lemma date_compare_lt (a b : date) :
  date_compare a b = Lt
  <-> (year a < year b
       \/ (year a = year b
           /\ (month a < month b \/ (month a = month b /\ day a < day b))))%Z.
Proof.
  unfold date_compare.
  destruct (Z.compare_spec (year a) (year b));
    [destruct (Z.compare_spec (month a) (month b));
       [destruct (Z.compare_spec (day a) (day b)) | |] | |];
    split; intros; try discriminate; try reflexivity; lia.
Qed.

Lemma not_older_trans (u v w : LawVersion) :
  not_older u v -> not_older v w -> not_older u w.
Proof.
  unfold not_older. rewrite !date_compare_lt. lia.
Qed.

Lemma not_older_total (v w : LawVersion) :
  date_compare (version_date v) (version_date w) = Lt -> not_older w v.
Proof.
  unfold not_older. rewrite !date_compare_lt. lia.
Qed.

Lemma insert_descending_spec (v : LawVersion) (l : list LawVersion) :
  StronglySorted not_older l ->
  StronglySorted not_older (insert_descending v l)
  /\ Permutation (v :: l) (insert_descending v l).
Proof.
  induction l as [| w r IH]; intros Hs.
  - cbn. split; [repeat constructor | apply Permutation_refl].
  - apply StronglySorted_inv in Hs. destruct Hs as [Hr Hw].
    destruct (IH Hr) as [IHs IHp].
    cbn [insert_descending].
    destruct (date_compare (version_date v) (version_date w)) eqn:E.
    + split; [| apply Permutation_refl].
      assert (Hvw : not_older v w) by (unfold not_older; rewrite E; discriminate).
      constructor; [constructor; assumption |].
      constructor; [exact Hvw |].
      eapply Forall_impl; [| exact Hw].
      intros x Hx. exact (not_older_trans Hvw Hx).
    + split.
      * constructor; [exact IHs |].
        apply Forall_forall. intros x Hx.
        apply (Permutation_in _ (Permutation_sym IHp)) in Hx.
        destruct Hx as [<- | Hx]; [exact (not_older_total _ _ E) |].
        rewrite Forall_forall in Hw. apply Hw. exact Hx.
      * eapply Permutation_trans; [apply perm_swap |].
        apply perm_skip. exact IHp.
    + split; [| apply Permutation_refl].
      assert (Hvw : not_older v w) by (unfold not_older; rewrite E; discriminate).
      constructor; [constructor; assumption |].
      constructor; [exact Hvw |].
      eapply Forall_impl; [| exact Hw].
      intros x Hx. exact (not_older_trans Hvw Hx).
Qed.

Lemma newest_first_spec (l : list LawVersion) :
  StronglySorted not_older (newest_first l)
  /\ Permutation l (newest_first l).
Proof.
  induction l as [| v l [IHs IHp]]; [split; [constructor | constructor] |].
  cbn [newest_first fold_right]. fold (newest_first l).
  destruct (insert_descending_spec v IHs) as [Hs Hp].
  split; [exact Hs |].
  eapply Permutation_trans; [apply perm_skip; exact IHp | exact Hp].
Qed.

(** ** [get_law_details] *)

Lemma law_details_not_found_iff_plain (isoformat : date -> text) (db : database)
    (law_short_name : text) :
  get_law_details isoformat db law_short_name = details_not_found
  <-> forall l, In l (laws db) -> short_name l <> law_short_name.
Proof.
  unfold get_law_details.
  destruct (find (fun l => text_eqb (short_name l) law_short_name) (laws db))
    as [law |] eqn:E.
  - apply find_some in E. destruct E as [Hin Hname].
    apply text_eqb_eq in Hname.
    split; [discriminate | intros H; exfalso; exact (H law Hin Hname)].
  - split; [| reflexivity].
    intros _ l Hin Hname.
    pose proof (find_none _ _ E l Hin) as Hf. cbn beta in Hf.
    apply text_eqb_eq in Hname. congruence.
Qed.

(** X9: [get_law_details] answers 404 exactly when no law of the table has
    the short name asked for. *)
Theorem law_details_not_found_iff (isoformat : date -> text) (db : database)
    (law_short_name : text) :
  get_law_details isoformat db law_short_name = details_not_found
  <-> forall l, In l (laws db) -> short_name l <> law_short_name.
Proof. exact (law_details_not_found_iff_plain isoformat db law_short_name). Qed.

Lemma law_details_not_found_iff_witness :
  get_law_details sample_isoformat sample_db (str "BGB") = details_not_found.
Proof.
  apply (proj2 (law_details_not_found_iff sample_isoformat sample_db (str "BGB"))).
  cbn. intros l [<- | [<- | []]]; discriminate.
Defined.

Lemma paragraph_numbers_of_spec (db : database) (law : Law) :
  StronglySorted text_lt (paragraph_numbers_of db law)
  /\ (forall num,
        In num (paragraph_numbers_of db law)
        <-> exists p v,
              In p (paragraphs db) /\ In v (law_versions db)
              /\ version_id v = paragraph_version_id p
              /\ version_law_id v = law_id law
              /\ paragraph_number p = num).
Proof.
  unfold paragraph_numbers_of.
  match goal with
  | |- context [distinct_ascending ?l] =>
      destruct (distinct_ascending_spec l) as [Hs Hin]
  end.
  split; [exact Hs |].
  intros num. rewrite Hin, in_map_iff.
  split.
  - intros (p & Hnum & Hp). apply filter_In in Hp. destruct Hp as [Hp Hex].
    apply existsb_true_iff in Hex. destruct Hex as (v & Hv & H).
    rewrite andb_true_iff, !Z.eqb_eq in H.
    exists p, v. tauto.
  - intros (p & v & Hp & Hv & Hid & Hlaw & Hnum).
    exists p. split; [exact Hnum |].
    apply filter_In. split; [exact Hp |].
    apply existsb_true_iff. exists v. split; [exact Hv |].
    rewrite andb_true_iff, !Z.eqb_eq. tauto.
Qed.

(** X10: in an answer of [get_law_details] the paragraph numbers are in
    strictly ascending order, so none is listed twice, and they are exactly
    the numbers of the paragraphs whose version belongs to the law found. *)
Theorem law_details_paragraph_numbers (isoformat : date -> text) (db : database)
    (law_short_name : text) (versions : list (text * option text))
    (numbers : list text) :
  get_law_details isoformat db law_short_name = details_ok versions numbers ->
  StronglySorted text_lt numbers
  /\ NoDup numbers
  /\ exists law,
       In law (laws db) /\ short_name law = law_short_name
       /\ forall num,
            In num numbers
            <-> exists p v,
                  In p (paragraphs db) /\ In v (law_versions db)
                  /\ version_id v = paragraph_version_id p
                  /\ version_law_id v = law_id law
                  /\ paragraph_number p = num.
Proof.
  unfold get_law_details.
  destruct (find (fun l => text_eqb (short_name l) law_short_name) (laws db))
    as [law |] eqn:E; [| discriminate].
  intros H. injection H as _ <-.
  apply find_some in E. destruct E as [Hin Hname]. apply text_eqb_eq in Hname.
  destruct (paragraph_numbers_of_spec db law) as [Hs Hmem].
  split; [exact Hs | split; [exact (strictly_sorted_NoDup Hs) |]].
  exists law. tauto.
Qed.

(** X11: in an answer of [get_law_details] the versions are those of the
    law found, each version row once, the newest first. *)
Theorem law_details_versions (isoformat : date -> text) (db : database)
    (law_short_name : text) (versions : list (text * option text))
    (numbers : list text) :
  get_law_details isoformat db law_short_name = details_ok versions numbers ->
  exists law rows,
    In law (laws db) /\ short_name law = law_short_name
    /\ versions = List.map (fun v => (isoformat (version_date v), description v)) rows
    /\ Permutation
         (filter (fun v => Z.eqb (version_law_id v) (law_id law)) (law_versions db))
         rows
    /\ StronglySorted not_older rows.
Proof.
  unfold get_law_details.
  destruct (find (fun l => text_eqb (short_name l) law_short_name) (laws db))
    as [law |] eqn:E; [| discriminate].
  intros H. injection H as <- _.
  apply find_some in E. destruct E as [Hin Hname]. apply text_eqb_eq in Hname.
  exists law, (versions_of db law).
  unfold versions_of.
  match goal with
  | |- context [newest_first ?l] => destruct (newest_first_spec l) as [Hs Hp]
  end.
  tauto.
Qed.

Lemma law_details_paragraph_numbers_witness :
  StronglySorted text_lt [par_1; par_2] /\ NoDup [par_1; par_2].
Proof.
  assert (H : get_law_details sample_isoformat sample_db (str "EStG")
              = details_ok [(str "2020-01-01", None); (str "2019-01-01", None)]
                  [par_1; par_2]) by reflexivity.
  destruct (law_details_paragraph_numbers sample_isoformat sample_db (str "EStG") H)
    as (Hs & Hn & _).
  split; assumption.
Defined.

Lemma law_details_versions_witness :
  exists law rows,
    In law (laws sample_db) /\ short_name law = str "EStG"
    /\ [(str "2020-01-01", None); (str "2019-01-01", None)]
       = List.map (fun v => (sample_isoformat (version_date v), description v)) rows
    /\ Permutation
         (filter (fun v => Z.eqb (version_law_id v) (law_id law)) (law_versions sample_db))
         rows
    /\ StronglySorted not_older rows.
Proof.
  apply (law_details_versions sample_isoformat sample_db (str "EStG")
           (numbers := [par_1; par_2])).
  reflexivity.
Defined.

(** ** [manage_data.py]: keys and tables *)

Lemma fold_left_max_ge (r : list Z) :
  forall i x : Z, x = i \/ In x r -> (x <= fold_left Z.max r i)%Z.
Proof.
  induction r as [| y r IH]; intros i x H; cbn [fold_left].
  - destruct H as [-> | []]. lia.
  - destruct H as [-> | [-> | H]].
    + etransitivity; [| apply IH; left; reflexivity]. lia.
    + etransitivity; [| apply IH; left; reflexivity]. lia.
    + apply IH. right. exact H.
Qed.

Lemma next_id_fresh (ids : list Z) : ~ In (next_id ids) ids.
Proof.
  destruct ids as [| i r]; [intros [] |].
  intros H. cbn [next_id] in H.
  assert (Hle : (fold_left Z.max r i + 1 <= fold_left Z.max r i)%Z).
  { apply fold_left_max_ge. destruct H as [H | H]; [left; symmetry; exact H | right; exact H]. }
  lia.
Qed.

Lemma NoDup_snoc (A : Type) (l : list A) (a : A) :
  NoDup l -> ~ In a l -> NoDup (l ++ [a]).
Proof.
  intros Hl Ha. apply NoDup_app; [exact Hl | repeat constructor; intros [] |].
  intros x Hx [<- | []]. exact (Ha Hx).
Qed.

Lemma flush_paragraphs_spec (pending : list new_paragraph) :
  forall rows : list Paragraph,
    exists new,
      flush_paragraphs pending rows = rows ++ new
      /\ List.map paragraph_fields new = pending
      /\ (NoDup (List.map paragraph_id rows) ->
          NoDup (List.map paragraph_id (rows ++ new))).
Proof.
  induction pending as [| np pending IH]; intros rows.
  - exists []. cbn. rewrite app_nil_r. auto.
  - cbn [flush_paragraphs fold_left].
    match goal with
    | |- context [fold_left ?f pending (rows ++ [?row])] =>
        change (fold_left f pending (rows ++ [row]))
          with (flush_paragraphs pending (rows ++ [row]));
        destruct (IH (rows ++ [row])) as (new & Heq & Hf & Hnd);
        exists (row :: new)
    end.
    rewrite Heq, <- app_assoc. cbn [app List.map paragraph_fields].
    split; [reflexivity | split].
    + rewrite Hf. destruct np; reflexivity.
    + intros Hrows.
      match goal with
      | |- NoDup (List.map _ (rows ++ ?row :: new)) =>
          change (rows ++ row :: new) with (rows ++ [row] ++ new)
      end.
      rewrite app_assoc. apply Hnd.
      rewrite map_app. cbn [List.map paragraph_id].
      apply NoDup_snoc; [exact Hrows | apply next_id_fresh].
Qed.

Lemma integrity_commit (db : database) (laws' : list Law)
    (versions' : list LawVersion) (pending : list new_paragraph) :
  referential_integrity db ->
  NoDup (List.map law_id laws') ->
  NoDup (List.map version_id versions') ->
  incl (law_versions db) versions' ->
  (forall v, In v versions' -> exists l, In l laws' /\ law_id l = version_law_id v) ->
  (forall np, In np pending ->
     exists v, In v versions' /\ version_id v = new_version_id np) ->
  referential_integrity
    {| laws := laws'; law_versions := versions';
       paragraphs := flush_paragraphs pending (paragraphs db) |}.
Proof.
  intros (_ & _ & Hp & _ & Hpv) Hl Hv Hincl Hvl Hpend.
  destruct (flush_paragraphs_spec pending (paragraphs db)) as (new & Heq & Hf & Hnd).
  unfold referential_integrity. cbn [laws law_versions paragraphs].
  rewrite Heq.
  repeat split; try assumption; [apply Hnd; exact Hp |].
  intros p Hin. apply in_app_or in Hin. destruct Hin as [Hin | Hin].
  - destruct (Hpv p Hin) as (v & Hv1 & Hv2). exists v. split; [apply Hincl |]; assumption.
  - assert (Hnp : In (paragraph_fields p) pending).
    { rewrite <- Hf. apply in_map. exact Hin. }
    destruct (Hpend _ Hnp) as (v & Hv1 & Hv2). exists v. split; assumption.
Qed.

Lemma populate_versions_integrity (fromisoformat : text -> option date)
    (law : Z) (versions : list (text * version_data)) :
  forall (db : database) (pending : list new_paragraph)
         (db' : database) (pending' : list new_paragraph)
         (e : option populate_error),
    referential_integrity db ->
    (exists l, In l (laws db) /\ law_id l = law) ->
    (forall np, In np pending ->
       exists v, In v (law_versions db) /\ version_id v = new_version_id np) ->
    populate_versions fromisoformat law versions db pending = (db', pending', e) ->
    referential_integrity db'
    /\ laws db' = laws db
    /\ (forall np, In np pending' ->
          exists v, In v (law_versions db') /\ version_id v = new_version_id np).
Proof.
  induction versions as [| [ds vd] rest IH];
    intros db pending db' pending' e Hint Hlaw Hpend Hrun.
  - cbn in Hrun. injection Hrun as <- <- _. auto.
  - cbn [populate_versions] in Hrun.
    destruct (fromisoformat ds) as [d |]; [| injection Hrun as <- <- _; auto].
    apply IH in Hrun.
    + cbn [laws] in Hrun. exact Hrun.
    + destruct Hint as (Hl & Hv & Hp & Hvl & Hpv).
      apply integrity_commit; try assumption.
      * repeat split; assumption.
      * rewrite map_app. cbn [List.map version_id].
        apply NoDup_snoc; [exact Hv | apply next_id_fresh].
      * apply incl_appl, incl_refl.
      * intros v Hin. apply in_app_or in Hin. destruct Hin as [Hin | [<- | []]].
        -- apply Hvl. exact Hin.
        -- exact Hlaw.
      * intros np Hin. destruct (Hpend np Hin) as (v & Hv1 & Hv2).
        exists v. split; [apply in_or_app; left |]; assumption.
    + exact Hlaw.
    + intros np Hin. apply in_map_iff in Hin. destruct Hin as (item & <- & _).
      eexists. split; [cbn [law_versions]; apply in_or_app; right; left; reflexivity |].
      reflexivity.
Qed.

Lemma populate_laws_integrity (fromisoformat : text -> option date)
    (data : laws_data) :
  forall db : database,
    referential_integrity db ->
    referential_integrity (fst (populate_laws fromisoformat data db)).
Proof.
  induction data as [| [name law] rest IH]; intros db Hint; [exact Hint |].
  cbn [populate_laws].
  destruct (existsb _ (laws db)); [exact Hint |].
  match goal with
  | |- context [populate_versions fromisoformat ?id ?vs ?db1 []] =>
      destruct (populate_versions fromisoformat id vs db1 []) as [[db2 pending] e] eqn:Hrun;
      assert (H1 : referential_integrity db1)
  end.
  { destruct Hint as (Hl & Hv & Hp & Hvl & Hpv).
    unfold referential_integrity. cbn [laws law_versions paragraphs].
    repeat split; try assumption.
    - rewrite map_app. cbn [List.map law_id].
      apply NoDup_snoc; [exact Hl | apply next_id_fresh].
    - intros v Hin. destruct (Hvl v Hin) as (l & Hl1 & Hl2).
      exists l. split; [apply in_or_app; left |]; assumption. }
  apply populate_versions_integrity in Hrun; try assumption.
  - destruct Hrun as (H2 & _ & Hpend).
    destruct e as [e |]; [exact H2 |].
    apply IH.
    destruct H2 as (Hl & Hv & Hp & Hvl & Hpv).
    apply integrity_commit; try assumption.
    + repeat split; assumption.
    + apply incl_refl.
  - eexists. split; [cbn [laws]; apply in_or_app; right; left; reflexivity |].
    reflexivity.
  - intros np [].
Qed.

(** X12: whatever the data and whether or not the script fails on a date,
    [clear_and_init_db] followed by [populate_data_from_structure] leaves
    tables in which no key occurs twice, every version refers to a law of
    the table and every paragraph to a version of the table; the script
    keeps this when it starts from tables that have it. *)
Theorem populate_keeps_referential_integrity
    (fromisoformat : text -> option date) (data : laws_data) (db : database) :
  referential_integrity (fst (manage_data_main fromisoformat data db))
  /\ (referential_integrity db ->
      referential_integrity (fst (populate_data_from_structure fromisoformat data db))).
Proof.
  split; [| apply populate_laws_integrity].
  apply populate_laws_integrity.
  unfold referential_integrity, clear_and_init_db. cbn.
  repeat split; try constructor; intros ? [].
Qed.

Lemma populate_keeps_referential_integrity_witness :
  referential_integrity sample_db
  /\ referential_integrity
       (fst (populate_data_from_structure sample_fromisoformat
               [(str "BGB", mk_law_data (str "Buergerliches Gesetzbuch") (str "BGB") [])]
               sample_db)).
Proof.
  assert (H : referential_integrity sample_db).
  { unfold referential_integrity. cbn.
    repeat split;
      try (repeat constructor; cbn; intuition discriminate).
    - intros v [<- | [<- | [<- | []]]];
        (eexists; split;
         [(left; reflexivity) + (right; left; reflexivity) |]);
        reflexivity.
    - intros p [<- | [<- | [<- | [<- | [<- | []]]]]];
        (eexists; split;
         [(left; reflexivity) + (right; left; reflexivity)
          + (right; right; left; reflexivity) |]);
        reflexivity. }
  split; [exact H |].
  apply (proj2 (populate_keeps_referential_integrity sample_fromisoformat
                  [(str "BGB", mk_law_data (str "Buergerliches Gesetzbuch") (str "BGB") [])]
                  sample_db)).
  exact H.
Defined.

(** ** [manage_data.py]: what is stored *)

Lemma stored_from_grows (fromisoformat : text -> option date) (data : laws_data)
    (db db' : database) (np : new_paragraph) :
  incl (laws db) (laws db') ->
  incl (law_versions db) (law_versions db') ->
  stored_from fromisoformat data db np ->
  stored_from fromisoformat data db' np.
Proof.
  intros Hl Hv (v & l & law & ds & vd & item & H1 & H2 & H).
  exists v, l, law, ds, vd, item.
  split; [apply Hv; exact H1 | split; [apply Hl; exact H2 | exact H]].
Qed.

Lemma flush_paragraphs_fields (pending : list new_paragraph) (rows : list Paragraph) :
  List.map paragraph_fields (flush_paragraphs pending rows)
  = List.map paragraph_fields rows ++ pending.
Proof.
  destruct (flush_paragraphs_spec pending rows) as (new & -> & <- & _).
  apply map_app.
Qed.

Lemma populate_versions_provenance (fromisoformat : text -> option date)
    (data : laws_data) (id : Z) (law : law_data)
    (versions : list (text * version_data)) :
  forall (db : database) (pending : list new_paragraph)
         (db' : database) (pending' : list new_paragraph)
         (e : option populate_error),
    (exists l, In l (laws db) /\ law_id l = id /\ In (short_name l, law) data) ->
    incl versions (data_versions law) ->
    Forall (stored_from fromisoformat data db)
      (List.map paragraph_fields (paragraphs db) ++ pending) ->
    populate_versions fromisoformat id versions db pending = (db', pending', e) ->
    Forall (stored_from fromisoformat data db')
      (List.map paragraph_fields (paragraphs db') ++ pending')
    /\ laws db' = laws db
    /\ incl (law_versions db) (law_versions db').
Proof.
  induction versions as [| [ds vd] rest IH];
    intros db pending db' pending' e Hlaw Hincl Hall Hrun.
  - cbn in Hrun. injection Hrun as <- <- _.
    split; [exact Hall | split; [reflexivity | apply incl_refl]].
  - cbn [populate_versions] in Hrun.
    destruct (fromisoformat ds) as [d |] eqn:Hd;
      [| injection Hrun as <- <- _;
         split; [exact Hall | split; [reflexivity | apply incl_refl]]].
    apply IH in Hrun.
    + destruct Hrun as (H1 & H2 & H3). cbn [laws law_versions] in H2, H3.
      split; [exact H1 | split; [exact H2 |]].
      intros v Hv. apply H3, in_or_app. left. exact Hv.
    + cbn [laws]. exact Hlaw.
    + intros x Hx. apply Hincl. right. exact Hx.
    + cbn [paragraphs]. rewrite flush_paragraphs_fields.
      apply Forall_app. split.
      * eapply Forall_impl; [| exact Hall].
        intros np. apply stored_from_grows; cbn [laws law_versions];
          [apply incl_refl | apply incl_appl, incl_refl].
      * apply Forall_forall. intros np Hin.
        apply in_map_iff in Hin. destruct Hin as ([num item] & <- & Hitem).
        destruct Hlaw as (l & Hl1 & Hl2 & Hl3).
        eexists _, l, law, ds, vd, item.
        cbn [laws law_versions].
        split; [apply in_or_app; right; left; reflexivity |].
        cbn [version_id version_law_id version_date paragraph_object
             new_version_id new_number new_de new_zh fst snd].
        repeat split; try assumption; try reflexivity.
        apply Hincl. left. reflexivity.
Qed.

Lemma populate_versions_stores (fromisoformat : text -> option date)
    (id : Z) (versions : list (text * version_data)) :
  forall (db : database) (pending : list new_paragraph)
         (db' : database) (pending' : list new_paragraph),
    populate_versions fromisoformat id versions db pending = (db', pending', None) ->
    (forall ds vd item d,
        In (ds, vd) versions -> In item (data_paragraphs vd) ->
        fromisoformat ds = Some d ->
        exists v,
          In v (law_versions db') /\ version_law_id v = id /\ version_date v = d
          /\ In (paragraph_object (version_id v) item)
               (List.map paragraph_fields (paragraphs db') ++ pending'))
    /\ incl (List.map paragraph_fields (paragraphs db) ++ pending)
         (List.map paragraph_fields (paragraphs db') ++ pending')
    /\ incl (law_versions db) (law_versions db').
Proof.
  induction versions as [| [ds0 vd0] rest IH]; intros db pending db' pending' Hrun.
  - cbn in Hrun. injection Hrun as <- <-.
    split; [intros ds vd item d [] | split; apply incl_refl].
  - cbn [populate_versions] in Hrun.
    destruct (fromisoformat ds0) as [d0 |] eqn:Hd0; [| discriminate Hrun].
    apply IH in Hrun. destruct Hrun as (Hnew & Hkeep & Hvers).
    cbn [laws law_versions paragraphs] in Hkeep, Hvers.
    rewrite flush_paragraphs_fields in Hkeep.
    split; [| split].
    + intros ds vd item d [Heq | Hin] Hitem Hd.
      * injection Heq as <- <-.
        eexists. split; [apply Hvers, in_or_app; right; left; reflexivity |].
        cbn [version_law_id version_date version_id].
        split; [reflexivity | split; [congruence |]].
        apply Hkeep, in_or_app. right. apply in_map. exact Hitem.
      * exact (Hnew ds vd item d Hin Hitem Hd).
    + intros np Hnp. apply Hkeep, in_or_app. left. exact Hnp.
    + intros v Hv. apply Hvers, in_or_app. left. exact Hv.
Qed.

Lemma populate_versions_laws (fromisoformat : text -> option date) (id : Z)
    (versions : list (text * version_data)) :
  forall (db : database) (pending : list new_paragraph)
         (r : database * list new_paragraph * option populate_error),
    populate_versions fromisoformat id versions db pending = r ->
    laws (fst (fst r)) = laws db.
Proof.
  induction versions as [| [ds vd] rest IH]; intros db pending r Hrun.
  - subst r. reflexivity.
  - cbn [populate_versions] in Hrun.
    destruct (fromisoformat ds); [| subst r; reflexivity].
    apply IH in Hrun. exact Hrun.
Qed.

Lemma populate_laws_provenance (fromisoformat : text -> option date)
    (data : laws_data) (part : laws_data) :
  forall db : database,
    incl part data ->
    Forall (stored_from fromisoformat data db)
      (List.map paragraph_fields (paragraphs db)) ->
    Forall (stored_from fromisoformat data (fst (populate_laws fromisoformat part db)))
      (List.map paragraph_fields
         (paragraphs (fst (populate_laws fromisoformat part db)))).
Proof.
  induction part as [| [name law] rest IH]; intros db Hincl Hall; [exact Hall |].
  cbn [populate_laws].
  destruct (existsb _ (laws db)); [exact Hall |].
  match goal with
  | |- context [populate_versions fromisoformat ?id ?vs ?db1 []] =>
      destruct (populate_versions fromisoformat id vs db1 []) as [[db2 pending] e] eqn:Hrun
  end.
  apply populate_versions_provenance with (data := data) (law := law) in Hrun.
  - destruct Hrun as (H1 & _ & _).
    destruct e as [e |].
    + cbn [fst]. apply Forall_app in H1. tauto.
    + apply IH; [intros x Hx; apply Hincl; right; exact Hx |].
      cbn [paragraphs]. rewrite flush_paragraphs_fields.
      eapply Forall_impl; [| exact H1].
      intros np. apply stored_from_grows; apply incl_refl.
  - eexists. cbn [laws].
    split; [apply in_or_app; right; left; reflexivity |].
    split; [reflexivity |]. apply Hincl. left. reflexivity.
  - apply incl_refl.
  - rewrite app_nil_r. cbn [paragraphs].
    eapply Forall_impl; [| exact Hall].
    intros np. apply stored_from_grows; cbn [laws law_versions];
      [apply incl_appl, incl_refl | apply incl_refl].
Qed.

Lemma populate_laws_stores (fromisoformat : text -> option date)
    (data : laws_data) :
  forall db db' : database,
    populate_laws fromisoformat data db = (db', None) ->
    (forall name law ds vd item d,
        In (name, law) data -> In (ds, vd) (data_versions law) ->
        In item (data_paragraphs vd) -> fromisoformat ds = Some d ->
        exists l v,
          In l (laws db') /\ In v (law_versions db')
          /\ short_name l = name /\ law_id l = version_law_id v
          /\ version_date v = d
          /\ In (paragraph_object (version_id v) item)
               (List.map paragraph_fields (paragraphs db')))
    /\ incl (laws db) (laws db')
    /\ incl (law_versions db) (law_versions db')
    /\ incl (List.map paragraph_fields (paragraphs db))
         (List.map paragraph_fields (paragraphs db')).
Proof.
  induction data as [| [name0 law0] rest IH]; intros db db' Hrun.
  - cbn in Hrun. injection Hrun as <-.
    split; [intros name law ds vd item d [] | repeat split; apply incl_refl].
  - cbn [populate_laws] in Hrun.
    destruct (existsb _ (laws db)); [discriminate Hrun |].
    match type of Hrun with
    | context [populate_versions fromisoformat ?id ?vs ?db1 []] =>
        destruct (populate_versions fromisoformat id vs db1 []) as [[db2 pending] e] eqn:Hvs
    end.
    destruct e as [e |]; [discriminate Hrun |].
    pose proof (populate_versions_laws _ _ _ _ _ Hvs) as Hlaws2.
    cbn [laws fst] in Hlaws2.
    apply populate_versions_stores in Hvs.
    destruct Hvs as (Hnew & Hkeep & Hvers).
    apply IH in Hrun. destruct Hrun as (Hrest & Hl & Hv & Hp).
    cbn [laws law_versions paragraphs] in Hrest, Hl, Hv, Hp, Hkeep, Hvers.
    rewrite flush_paragraphs_fields in Hp.
    split; [| split; [| split]].
    + intros name law ds vd item d [Heq | Hin] Hver Hitem Hd.
      * injection Heq as <- <-.
        destruct (Hnew ds vd item d Hver Hitem Hd) as (v & Hv1 & Hv2 & Hv3 & Hv4).
        eexists _, v.
        split; [apply Hl; rewrite Hlaws2; apply in_or_app; right; left; reflexivity |].
        cbn [short_name law_id].
        split; [apply Hv; exact Hv1 |].
        split; [reflexivity | split; [symmetry; exact Hv2 | split; [exact Hv3 |]]].
        apply Hp. exact Hv4.
      * exact (Hrest name law ds vd item d Hin Hver Hitem Hd).
    + intros l Hin. apply Hl. rewrite Hlaws2. apply in_or_app. left. exact Hin.
    + intros v Hin. apply Hv, Hvers. exact Hin.
    + intros np Hin. apply Hp, Hkeep. rewrite app_nil_r. exact Hin.
Qed.

Lemma NoDup_map_unique (A B : Type) (f : A -> B) (l : list A) (a b : A) :
  NoDup (List.map f l) -> In a l -> In b l -> f a = f b -> a = b.
Proof.
  induction l as [| x l IH]; intros Hnd Ha Hb Hf; [destruct Ha |].
  cbn [List.map] in Hnd. apply NoDup_cons_iff in Hnd. destruct Hnd as [Hx Hnd].
  destruct Ha as [<- | Ha], Hb as [<- | Hb]; [reflexivity | | | auto].
  - exfalso. apply Hx. rewrite Hf. apply in_map. exact Hb.
  - exfalso. apply Hx. rewrite <- Hf. apply in_map. exact Ha.
Qed.

Lemma keys_once_unique (A : Type) (items : list (text * A)) (k : text) (a b : A) :
  keys_once items -> In (k, a) items -> In (k, b) items -> a = b.
Proof.
  intros Hk Ha Hb.
  assert (H : (k, a) = (k, b))
    by (apply (@NoDup_map_unique _ _ fst items _ _ Hk Ha Hb); reflexivity).
  congruence.
Qed.

Lemma populate_lookup_row (fromisoformat : text -> option date)
    (data : laws_data) (db0 db : database) :
  well_keyed fromisoformat data ->
  manage_data_main fromisoformat data db0 = (db, None) ->
  forall name law ds vd num item d,
    In (name, law) data -> In (ds, vd) (data_versions law) ->
    In (num, item) (data_paragraphs vd) -> fromisoformat ds = Some d ->
    exists p,
      query_first db name d num = Some p
      /\ content_de p = data_de item
      /\ content_zh p = Some (or_empty (data_zh item)).
Proof.
  intros [Hkeys Hwell] Hrun name law ds vd num item d Hlaw Hver Hitem Hd.
  unfold manage_data_main, populate_data_from_structure in Hrun.
  (* the tables are consistent and every row comes from the data *)
  pose proof (populate_laws_integrity fromisoformat data (db := clear_and_init_db db0))
    as Hint.
  pose proof (@populate_laws_provenance fromisoformat data data
                (clear_and_init_db db0) (incl_refl _)) as Hprov.
  rewrite Hrun in Hint, Hprov. cbn [fst] in Hint, Hprov.
  assert (Hint' : referential_integrity db).
  { apply Hint. unfold referential_integrity, clear_and_init_db. cbn.
    repeat split; try constructor; intros ? []. }
  assert (Hprov' : Forall (stored_from fromisoformat data db)
                     (List.map paragraph_fields (paragraphs db))).
  { apply Hprov. constructor. }
  clear Hint Hprov.
  destruct Hint' as (Hlid & Hvid & _).
  (* the row of the item is in the table *)
  destruct (populate_laws_stores _ _ _ Hrun) as (Hstored & _).
  destruct (Hstored name law ds vd (num, item) d Hlaw Hver Hitem Hd)
    as (l & v & Hl & Hv & Hname & Hlv & Hdate & Hrow).
  apply in_map_iff in Hrow. destruct Hrow as (p0 & Hfields & Hp0).
  assert (Hmatch : paragraph_matches db name d num p0 = true).
  { apply paragraph_matches_iff.
    split; [exact (f_equal new_number Hfields) |].
    exists v, l. repeat split; try assumption.
    symmetry. exact (f_equal new_version_id Hfields). }
  unfold query_first.
  destruct (find (paragraph_matches db name d num) (paragraphs db)) as [p |] eqn:Hfind;
    [| pose proof (find_none _ _ Hfind p0 Hp0); congruence].
  exists p. split; [reflexivity |].
  (* the row that is found comes from the same item *)
  apply find_some in Hfind. destruct Hfind as [Hp Hpm].
  apply paragraph_matches_iff in Hpm.
  destruct Hpm as [Hnum (v2 & l2 & Hv2 & Hl2 & Hvid2 & Hdate2 & Hlid2 & Hname2)].
  rewrite Forall_forall in Hprov'.
  destruct (Hprov' (paragraph_fields p) (in_map _ _ _ Hp))
    as (v1 & l1 & law1 & ds1 & vd1 & item1 & Hv1 & Hl1 & Hvid1 & Hlid1
        & Hlaw1 & Hver1 & Hd1 & Hitem1 & Hde & Hzh).
  cbn [paragraph_fields new_version_id new_number new_de new_zh] in *.
  assert (v1 = v2)
    by (apply (@NoDup_map_unique _ _ version_id _ _ _ Hvid Hv1 Hv2); congruence).
  subst v2.
  assert (l1 = l2)
    by (apply (@NoDup_map_unique _ _ law_id _ _ _ Hlid Hl1 Hl2); congruence).
  subst l2.
  rewrite Hname2 in Hlaw1.
  assert (law1 = law) by exact (@keys_once_unique _ _ _ _ _ Hkeys Hlaw1 Hlaw). subst law1.
  destruct (Hwell name law Hlaw) as (Hvkeys & Hdates & Hpkeys).
  rewrite Hdate2 in Hd1.
  assert (ds1 = ds) by exact (Hdates ds1 vd1 ds vd d Hver1 Hver Hd1 Hd). subst ds1.
  assert (vd1 = vd) by exact (@keys_once_unique _ _ _ _ _ Hvkeys Hver1 Hver). subst vd1.
  rewrite Hnum in Hitem1.
  assert (item1 = item)
    by exact (@keys_once_unique _ _ _ _ _ (Hpkeys ds vd Hver) Hitem1 Hitem).
  subst item1. split; assumption.
Qed.

(** X13: store and look up.  When the data has every key once, the
    versions of a law have different dates and the script ends without an
    exception, then for every paragraph of every version of every law of the
    data the lookup of [get_synopsis_api] by law name, version date and
    paragraph number finds a row, and the row carries the German text of
    that paragraph and its Chinese text, the empty text when the key 'zh' is
    missing. *)
Theorem populate_then_lookup (fromisoformat : text -> option date)
    (data : laws_data) (db0 db : database) :
  well_keyed fromisoformat data ->
  manage_data_main fromisoformat data db0 = (db, None) ->
  forall name law ds vd num item d,
    In (name, law) data -> In (ds, vd) (data_versions law) ->
    In (num, item) (data_paragraphs vd) -> fromisoformat ds = Some d ->
    exists p,
      query_first db name d num = Some p
      /\ content_de p = data_de item
      /\ content_zh p = Some (or_empty (data_zh item)).
Proof. exact (@populate_lookup_row fromisoformat data db0 db). Qed.

Lemma sample_data_well_keyed : well_keyed sample_fromisoformat sample_data.
Proof.
  split; [repeat constructor; cbn; intuition discriminate |].
  intros name law Hin.
  cbn in Hin. destruct Hin as [Hin | [Hin | []]]; injection Hin as <- <-;
    cbn [data_versions].
  - split; [repeat constructor; cbn; intuition discriminate | split].
    + intros ds1 vd1 ds2 vd2 d [H1 | [H1 | []]] [H2 | [H2 | []]] Hd1 Hd2;
        injection H1 as <- <-; injection H2 as <- <-;
        try reflexivity; vm_compute in Hd1, Hd2; congruence.
    + intros ds vd [H | [H | []]]; injection H as <- <-;
        repeat constructor; cbn; intuition discriminate.
  - split; [repeat constructor; cbn; intuition discriminate | split].
    + intros ds1 vd1 ds2 vd2 d [H1 | []] [H2 | []] _ _;
        injection H1 as <- <-; injection H2 as <- <-; reflexivity.
    + intros ds vd [H | []]; injection H as <- <-;
        repeat constructor; cbn; intuition discriminate.
Qed.

Lemma populate_then_lookup_witness :
  exists p,
    query_first (fst (manage_data_main sample_fromisoformat sample_data sample_db))
      (str "EStG") (mk_date 2020 1 1) par_2 = Some p
    /\ content_de p = str "im Ausland wohnen und stehen."
    /\ content_zh p = Some [].
Proof.
  apply (@populate_then_lookup sample_fromisoformat sample_data sample_db
           (fst (manage_data_main sample_fromisoformat sample_data sample_db))
           sample_data_well_keyed eq_refl
           (str "EStG") (snd (nth 0 sample_data (([] : text), mk_law_data [] [] [])))
           (str "2020-01-01")
           (mk_version_data (str "Fassung 2020")
              [ (par_1, mk_paragraph_data (str "sind voll pflichtig.") (Some (str "ab")));
                (par_2, mk_paragraph_data (str "im Ausland wohnen und stehen.") None) ])
           par_2 (mk_paragraph_data (str "im Ausland wohnen und stehen.") None)
           (mk_date 2020 1 1)).
  - left. reflexivity.
  - right. left. reflexivity.
  - right. left. reflexivity.
  - reflexivity.
Defined.

(** X14: the script and the request layer fit together.  After the script
    ran without an exception on well-keyed data, a request that names a law
    of the data, the date strings of two of its versions and a paragraph
    number that both versions hold is answered with status 200, and the body
    carries the two dates and the two sides of the synopsis of the German
    texts and of the Chinese texts of the data. *)
Theorem request_after_populate (fromisoformat : text -> option date)
    (isoformat : date -> text) (data : laws_data) (db0 db : database) :
  well_keyed fromisoformat data ->
  manage_data_main fromisoformat data db0 = (db, None) ->
  forall name law ds1 vd1 ds2 vd2 request_num num item1 item2 d1 d2,
    In (name, law) data ->
    In (ds1, vd1) (data_versions law) -> In (ds2, vd2) (data_versions law) ->
    In (num, item1) (data_paragraphs vd1) -> In (num, item2) (data_paragraphs vd2) ->
    fromisoformat ds1 = Some d1 -> fromisoformat ds2 = Some d2 ->
    replace (str "%20") (str " ") request_num = num ->
    get_synopsis_api fromisoformat isoformat db name ds1 ds2 request_num
    = (json_synopsis name num
         {| json_date := isoformat d1;
            content_html_de :=
              old_version_html (generate_synopsis_html (data_de item1) (data_de item2));
            content_html_zh :=
              old_version_html
                (generate_synopsis_html (or_empty (data_zh item1))
                                        (or_empty (data_zh item2))) |}
         {| json_date := isoformat d2;
            content_html_de :=
              new_version_html (generate_synopsis_html (data_de item1) (data_de item2));
            content_html_zh :=
              new_version_html
                (generate_synopsis_html (or_empty (data_zh item1))
                                        (or_empty (data_zh item2))) |},
       200%Z).
Proof.
  intros Hwell Hrun name law ds1 vd1 ds2 vd2 request_num num item1 item2 d1 d2
         Hlaw Hv1 Hv2 Hi1 Hi2 Hd1 Hd2 Hnum.
  destruct (@populate_lookup_row _ _ _ _ Hwell Hrun name law ds1 vd1 num item1 d1
              Hlaw Hv1 Hi1 Hd1)
    as (p1 & Hq1 & Hde1 & Hzh1).
  destruct (@populate_lookup_row _ _ _ _ Hwell Hrun name law ds2 vd2 num item2 d2
              Hlaw Hv2 Hi2 Hd2)
    as (p2 & Hq2 & Hde2 & Hzh2).
  unfold get_synopsis_api.
  rewrite Hd1, Hd2, Hnum, Hq1, Hq2, Hde1, Hde2, Hzh1, Hzh2.
  reflexivity.
Qed.

Lemma request_after_populate_witness :
  snd (get_synopsis_api sample_fromisoformat sample_isoformat
         (fst (manage_data_main sample_fromisoformat sample_data sample_db))
         (str "EStG") (str "2019-01-01") (str "2020-01-01") ([167%N] ++ str "%202"))
  = 200%Z.
Proof.
  rewrite (@request_after_populate sample_fromisoformat sample_isoformat sample_data
             sample_db (fst (manage_data_main sample_fromisoformat sample_data sample_db))
             sample_data_well_keyed eq_refl
             (str "EStG") (snd (nth 0 sample_data (([] : text), mk_law_data [] [] [])))
             (str "2019-01-01")
             (mk_version_data (str "Fassung 2019")
                [ (par_1, mk_paragraph_data (str "sind pflichtig.") (Some (str "a")));
                  (par_2, mk_paragraph_data (str "im Ausland wohnen.") None) ])
             (str "2020-01-01")
             (mk_version_data (str "Fassung 2020")
                [ (par_1, mk_paragraph_data (str "sind voll pflichtig.") (Some (str "ab")));
                  (par_2, mk_paragraph_data (str "im Ausland wohnen und stehen.") None) ])
             ([167%N] ++ str "%202") par_2
             (mk_paragraph_data (str "im Ausland wohnen.") None)
             (mk_paragraph_data (str "im Ausland wohnen und stehen.") None)
             (mk_date 2019 1 1) (mk_date 2020 1 1)).
  - reflexivity.
  - left. reflexivity.
  - left. reflexivity.
  - right. left. reflexivity.
  - right. left. reflexivity.
  - right. left. reflexivity.
  - reflexivity.
  - reflexivity.
  - reflexivity.
Defined.

(** ** [manage_data.py]: how the script ends *)

Lemma populate_versions_error (fromisoformat : text -> option date) (id : Z)
    (versions : list (text * version_data)) :
  forall (db : database) (pending : list new_paragraph)
         (db' : database) (pending' : list new_paragraph)
         (e : option populate_error),
    populate_versions fromisoformat id versions db pending = (db', pending', e) ->
    e <> Some IntegrityError
    /\ (e = None <->
        forall ds vd, In (ds, vd) versions -> fromisoformat ds <> None).
Proof.
  induction versions as [| [ds0 vd0] rest IH]; intros db pending db' pending' e Hrun.
  - cbn in Hrun. injection Hrun as _ _ <-.
    split; [discriminate | split; [intros _ ds vd [] | reflexivity]].
  - cbn [populate_versions] in Hrun.
    destruct (fromisoformat ds0) as [d0 |] eqn:Hd0.
    + apply IH in Hrun. destruct Hrun as [H1 H2].
      split; [exact H1 |]. rewrite H2. split.
      * intros H ds vd [Heq | Hin]; [injection Heq as <- <-; congruence | eauto].
      * intros H ds vd Hin. apply (H ds vd). right. exact Hin.
    + injection Hrun as _ _ <-.
      split; [discriminate | split; [discriminate |]].
      intros H. exfalso. apply (H ds0 vd0); [left; reflexivity | exact Hd0].
Qed.

Lemma existsb_short_name_false (rows : list Law) (name : text) :
  (forall l, In l rows -> short_name l <> name) ->
  existsb (fun l => text_eqb (short_name l) name) rows = false.
Proof.
  intros H. destruct (existsb _ rows) eqn:E; [| reflexivity].
  apply existsb_true_iff in E. destruct E as (l & Hl & Heq).
  apply text_eqb_eq in Heq. exfalso. exact (H l Hl Heq).
Qed.

Lemma populate_laws_error (fromisoformat : text -> option date) (data : laws_data) :
  forall db : database,
    keys_once data ->
    (forall name law l, In (name, law) data -> In l (laws db) -> short_name l <> name) ->
    snd (populate_laws fromisoformat data db) <> Some IntegrityError
    /\ (snd (populate_laws fromisoformat data db) = None <->
        forall name law ds vd,
          In (name, law) data -> In (ds, vd) (data_versions law) ->
          fromisoformat ds <> None).
Proof.
  induction data as [| [name0 law0] rest IH]; intros db Hkeys Hfree.
  - cbn. split; [discriminate | split; [intros _ ? ? ? ? [] | reflexivity]].
  - cbn [populate_laws].
    rewrite existsb_short_name_false
      by (intros l Hl; apply (Hfree name0 law0 l); [left; reflexivity | exact Hl]).
    match goal with
    | |- context [populate_versions fromisoformat ?id ?vs ?db1 []] =>
        destruct (populate_versions fromisoformat id vs db1 []) as [[db2 pending] e] eqn:Hvs
    end.
    pose proof (populate_versions_laws _ _ _ _ _ Hvs) as Hlaws2.
    cbn [laws fst] in Hlaws2.
    apply populate_versions_error in Hvs. destruct Hvs as [Hne Hiff].
    unfold keys_once in Hkeys. cbn [List.map fst] in Hkeys.
    apply NoDup_cons_iff in Hkeys. destruct Hkeys as [Hname0 Hkeys].
    destruct e as [e |].
    + cbn [snd]. split; [exact Hne | split; [discriminate |]].
      intros H. assert (Some e = None); [| discriminate].
      apply Hiff. intros ds vd Hin. apply (H name0 law0 ds vd); [left; reflexivity | exact Hin].
    + match goal with
      | |- context [populate_laws fromisoformat rest ?db3] =>
          destruct (IH db3 Hkeys) as [H1 H2]
      end.
      { cbn [laws]. rewrite Hlaws2. intros name law l Hin Hl.
        apply in_app_or in Hl. destruct Hl as [Hl | [<- | []]].
        - apply (Hfree name law l); [right |]; assumption.
        - cbn [short_name]. intros ->. apply Hname0.
          change name with (fst (name, law)). apply in_map. exact Hin. }
      split; [exact H1 |]. rewrite H2. split.
      * intros H name law ds vd [Heq | Hin] Hver.
        -- injection Heq as <- <-. apply (proj1 Hiff eq_refl ds vd Hver).
        -- exact (H name law ds vd Hin Hver).
      * intros H name law ds vd Hin. apply (H name law ds vd). right. exact Hin.
Qed.

(** X15: run on a dictionary, the main block of [manage_data.py] ends
    without an exception exactly when [date.fromisoformat] reads the date
    string of every version of every law; the unique constraint of the law
    names is never broken, so the only exception is the [ValueError] of a
    date. *)
Theorem populate_succeeds_iff_dates_valid (fromisoformat : text -> option date)
    (data : laws_data) (db0 : database) :
  keys_once data ->
  snd (manage_data_main fromisoformat data db0) <> Some IntegrityError
  /\ (snd (manage_data_main fromisoformat data db0) = None <->
      forall name law ds vd,
        In (name, law) data -> In (ds, vd) (data_versions law) ->
        fromisoformat ds <> None).
Proof.
  intros Hkeys. apply populate_laws_error; [exact Hkeys |].
  intros name law l _ [].
Qed.

Lemma populate_succeeds_iff_dates_valid_witness :
  keys_once sample_data
  /\ snd (manage_data_main sample_fromisoformat sample_data sample_db)
     <> Some IntegrityError.
Proof.
  assert (H : keys_once sample_data) by exact (proj1 sample_data_well_keyed).
  split; [exact H |].
  exact (proj1 (populate_succeeds_iff_dates_valid sample_fromisoformat sample_db H)).
Defined.

Lemma populate_laws_rows (fromisoformat : text -> option date) (data : laws_data) :
  forall db db' : database,
    populate_laws fromisoformat data db = (db', None) ->
    get_laws db'
    = get_laws db
      ++ List.map
           (fun entry =>
              {| json_short_name := fst entry;
                 json_full_name_de := data_full_name_de (snd entry) |})
           data.
Proof.
  induction data as [| [name0 law0] rest IH]; intros db db' Hrun.
  - cbn in Hrun. injection Hrun as <-. rewrite app_nil_r. reflexivity.
  - cbn [populate_laws] in Hrun.
    destruct (existsb _ (laws db)); [discriminate Hrun |].
    match type of Hrun with
    | context [populate_versions fromisoformat ?id ?vs ?db1 []] =>
        destruct (populate_versions fromisoformat id vs db1 []) as [[db2 pending] e] eqn:Hvs
    end.
    destruct e as [e |]; [discriminate Hrun |].
    pose proof (populate_versions_laws _ _ _ _ _ Hvs) as Hlaws2.
    cbn [laws fst] in Hlaws2.
    apply IH in Hrun. rewrite Hrun. unfold get_laws. cbn [laws].
    rewrite Hlaws2, map_app, <- app_assoc. reflexivity.
Qed.

(** X16: after the script ran without an exception, [get_laws] lists the
    laws of the data and no others, in the order of the data, each with its
    short name and its German name. *)
Theorem get_laws_after_populate (fromisoformat : text -> option date)
    (data : laws_data) (db0 db : database) :
  manage_data_main fromisoformat data db0 = (db, None) ->
  get_laws db
  = List.map
      (fun entry =>
         {| json_short_name := fst entry;
            json_full_name_de := data_full_name_de (snd entry) |})
      data.
Proof.
  intros Hrun. unfold manage_data_main, populate_data_from_structure in Hrun.
  apply populate_laws_rows in Hrun. exact Hrun.
Qed.

Lemma get_laws_after_populate_witness :
  get_laws (fst (manage_data_main sample_fromisoformat sample_data sample_db))
  = [ mk_law_json (str "EStG") (str "Einkommensteuergesetz");
      mk_law_json (str "UStG") (str "Umsatzsteuergesetz") ].
Proof.
  exact (@get_laws_after_populate sample_fromisoformat sample_data sample_db
           (fst (manage_data_main sample_fromisoformat sample_data sample_db)) eq_refl).
Defined.

(** X17: the script cannot be run twice without clearing: applied again to
    the tables that a run without exception on the same data, not empty, has
    left, [populate_data_from_structure] stops at the first law with the
    [IntegrityError] of the unique short name and changes nothing. *)
Theorem populate_twice_fails (fromisoformat : text -> option date)
    (data : laws_data) (db0 db : database) :
  data <> [] ->
  manage_data_main fromisoformat data db0 = (db, None) ->
  populate_data_from_structure fromisoformat data db = (db, Some IntegrityError).
Proof.
  intros Hne Hrun.
  pose proof Hrun as Hlaws.
  unfold manage_data_main, populate_data_from_structure in Hlaws.
  apply populate_laws_rows in Hlaws. cbn [app get_laws clear_and_init_db] in Hlaws.
  destruct data as [| [name0 law0] rest]; [contradiction |].
  unfold populate_data_from_structure. cbn [populate_laws].
  assert (Hex : existsb (fun l => text_eqb (short_name l) name0) (laws db) = true).
  { unfold get_laws in Hlaws.
    destruct (laws db) as [| l ls]; [discriminate Hlaws |].
    cbn [List.map] in Hlaws. injection Hlaws as Hname _ _.
    cbn [existsb fst] in *.
    rewrite (proj2 (text_eqb_eq (short_name l) name0) Hname). reflexivity. }
  rewrite Hex. reflexivity.
Qed.

Lemma populate_twice_fails_witness :
  populate_data_from_structure sample_fromisoformat sample_data
    (fst (manage_data_main sample_fromisoformat sample_data sample_db))
  = (fst (manage_data_main sample_fromisoformat sample_data sample_db),
     Some IntegrityError).
Proof.
  apply (@populate_twice_fails sample_fromisoformat sample_data sample_db).
  - discriminate.
  - reflexivity.
Defined.

Lemma populate_law_names (fromisoformat : text -> option date)
    (data : laws_data) (db0 db : database) :
  manage_data_main fromisoformat data db0 = (db, None) ->
  List.map short_name (laws db) = List.map fst data.
Proof.
  intros Hrun. unfold manage_data_main, populate_data_from_structure in Hrun.
  apply populate_laws_rows in Hrun.
  apply (f_equal (List.map json_short_name)) in Hrun.
  unfold get_laws in Hrun. cbn [app clear_and_init_db laws List.map] in Hrun.
  rewrite !map_map in Hrun. exact Hrun.
Qed.

(** X18: the script and [get_law_details] fit together.  After the script
    ran without an exception on well-keyed data, [get_law_details] answers
    404 exactly for the names that are no law of the data, and for a law of
    the data it lists exactly the paragraph numbers that occur in the
    versions of that law. *)
Theorem law_details_after_populate (fromisoformat : text -> option date)
    (isoformat : date -> text) (data : laws_data) (db0 db : database) :
  well_keyed fromisoformat data ->
  manage_data_main fromisoformat data db0 = (db, None) ->
  forall name,
    (get_law_details isoformat db name = details_not_found
     <-> ~ In name (List.map fst data))
    /\ (forall law,
          In (name, law) data ->
          exists versions numbers,
            get_law_details isoformat db name = details_ok versions numbers
            /\ forall num,
                 In num numbers
                 <-> exists ds vd item,
                       In (ds, vd) (data_versions law)
                       /\ In (num, item) (data_paragraphs vd)).
Proof.
  intros [Hkeys Hwell] Hrun name.
  pose proof (populate_law_names _ _ _ Hrun) as Hnames.
  split.
  - rewrite law_details_not_found_iff_plain, <- Hnames, in_map_iff.
    split.
    + intros H (l & Hl1 & Hl2). exact (H l Hl2 Hl1).
    + intros H l Hl1 Hl2. apply H. exists l. tauto.
  - intros law Hlaw.
    assert (Hnd : NoDup (List.map short_name (laws db)))
      by (rewrite Hnames; exact Hkeys).
    unfold get_law_details.
    destruct (find (fun l => text_eqb (short_name l) name) (laws db)) as [l0 |] eqn:E.
    2:{ exfalso.
        assert (Hin : In name (List.map short_name (laws db))).
        { rewrite Hnames. change name with (fst (name, law)). apply in_map. exact Hlaw. }
        apply in_map_iff in Hin. destruct Hin as (l & Hl1 & Hl2).
        pose proof (find_none _ _ E l Hl2) as Hf. cbn beta in Hf.
        rewrite (proj2 (text_eqb_eq (short_name l) name) Hl1) in Hf. discriminate Hf. }
    apply find_some in E. destruct E as [Hl0 Hname0]. apply text_eqb_eq in Hname0.
    eexists _, _. split; [reflexivity |].
    intros num.
    rewrite (proj2 (paragraph_numbers_of_spec db l0) num).
    unfold manage_data_main, populate_data_from_structure in Hrun.
    pose proof (populate_laws_integrity fromisoformat data (db := clear_and_init_db db0))
      as Hint.
    pose proof (@populate_laws_provenance fromisoformat data data
                  (clear_and_init_db db0) (incl_refl _)) as Hprov.
    rewrite Hrun in Hint, Hprov. cbn [fst] in Hint, Hprov.
    assert (Hint' : referential_integrity db).
    { apply Hint. unfold referential_integrity, clear_and_init_db. cbn.
      repeat split; try constructor; intros ? []. }
    assert (Hprov' : Forall (stored_from fromisoformat data db)
                       (List.map paragraph_fields (paragraphs db))).
    { apply Hprov. constructor. }
    clear Hint Hprov. destruct Hint' as (Hlid & Hvid & _).
    split.
    + intros (p & v & Hp & Hv & Hpv & Hvl & Hnum).
      rewrite Forall_forall in Hprov'.
      destruct (Hprov' (paragraph_fields p) (in_map _ _ _ Hp))
        as (v1 & l1 & law1 & ds1 & vd1 & item1 & Hv1 & Hl1 & Hvid1 & Hlid1
            & Hlaw1 & Hver1 & _ & Hitem1 & _).
      cbn [paragraph_fields new_version_id new_number] in *.
      assert (v1 = v)
        by (apply (@NoDup_map_unique _ _ version_id _ _ _ Hvid Hv1 Hv); congruence).
      subst v1.
      assert (l1 = l0)
        by (apply (@NoDup_map_unique _ _ law_id _ _ _ Hlid Hl1 Hl0); congruence).
      subst l1. rewrite Hname0 in Hlaw1.
      assert (law1 = law) by exact (@keys_once_unique _ _ _ _ _ Hkeys Hlaw1 Hlaw).
      subst law1. rewrite Hnum in Hitem1. exists ds1, vd1, item1. tauto.
    + intros (ds & vd & item & Hver & Hitem).
      destruct (fromisoformat ds) as [d |] eqn:Hd.
      2:{ exfalso.
          pose proof (@populate_laws_error fromisoformat data (clear_and_init_db db0)
                        Hkeys (fun _ _ _ _ (H : In _ []) => match H with end))
            as [_ Hiff].
          rewrite Hrun in Hiff. cbn [snd] in Hiff.
          exact (proj1 Hiff eq_refl name law ds vd Hlaw Hver Hd). }
      destruct (populate_laws_stores _ _ _ Hrun) as (Hstored & _).
      destruct (Hstored name law ds vd (num, item) d Hlaw Hver Hitem Hd)
        as (l & v & Hl & Hv & Hname & Hlv & _ & Hrow).
      apply in_map_iff in Hrow. destruct Hrow as (p & Hfields & Hp).
      assert (l = l0)
        by (apply (@NoDup_map_unique _ _ short_name _ _ _ Hnd Hl Hl0); congruence).
      subst l.
      exists p, v. repeat split; try assumption.
      * symmetry. exact (f_equal new_version_id Hfields).
      * symmetry. exact Hlv.
      * exact (f_equal new_number Hfields).
Qed.

Lemma law_details_after_populate_witness :
  get_law_details sample_isoformat
    (fst (manage_data_main sample_fromisoformat sample_data sample_db)) (str "BGB")
  = details_not_found.
Proof.
  apply (proj2 (proj1 (@law_details_after_populate sample_fromisoformat
                         sample_isoformat sample_data sample_db
                         (fst (manage_data_main sample_fromisoformat sample_data sample_db))
                         sample_data_well_keyed eq_refl (str "BGB")))).
  cbn. intuition discriminate.
Defined.


